(** * Jotto peer-synchronised word game: scoring engine and session manager

    A shallow embedding of [game-logic.ts] (word validation, common-letter
    scoring, game ids) and of the BroadcastChannel-backed [P2PGameManager]
    ([p2p-game-manager.ts]) together with the part of [BroadcastManager]
    it drives, followed by the properties established about them. The
    WebRTC-backed variant of the manager has the same handlers; its
    [reconnectToGame] lacks the look-up of the host advertisement.

    Conventions of the embedding.
    - A JavaScript string is a sequence of UTF-16 code units; the model
      covers strings whose code units are below 256 and represents them as
      [string] (a list of [ascii]). Every statement about words is a
      statement about such strings; every word [validateWord] accepts is
      one. On them [toLowerCase] maps each code unit to one code unit;
      beyond them it does not (U+0130 becomes two code units), and nothing
      here speaks of such words.
    - [Date.now()] readings are integers counted in milliseconds ([Z]); every
      function that reads the clock takes its readings as arguments.
    - Random draws ([Math.random()]) are arguments as well.
    - The session manager talks to the transport through calls to
      [broadcast] and [send]; its handlers return the calls they make, in
      program order, next to the new manager state. This is the run of a
      handler in which every transport call returns, as it does while the
      channel is open or absent. A call on a channel that [cleanup] has
      closed throws, and the statements after it do not run: the handlers
      as methods of the process, with that behaviour, are in
      [P2PGameManager], and [handle_usable_channel] relates the two. *)

From Stdlib Require Import ZArith String Ascii Permutation Lia Bool.
From stdpp Require Import base option list gmap strings pretty fin_maps.

Local Open Scope string_scope.

(** ** String primitives of the host language *)

Module Js.

Definition code (c : ascii) : nat := nat_of_ascii c.

Definition isUpperAZ (c : ascii) : bool := (65 <=? code c)%nat && (code c <=? 90)%nat.
Definition isLowerAZ (c : ascii) : bool := (97 <=? code c)%nat && (code c <=? 122)%nat.

(** Character class [[A-Za-z]]. *)
Definition inClassAZaz (c : ascii) : bool := isUpperAZ c || isLowerAZ c.

(** [String.prototype.toLowerCase] on one code unit below 256: the
    letters A-Z and the Latin-1 capitals U+00C0..U+00DE (the
    multiplication sign U+00D7 apart) move up by 32. *)
Definition lowerChar (c : ascii) : ascii :=
  let n := code c in
  if isUpperAZ c || ((192 <=? n)%nat && (n <=? 222)%nat && negb (n =? 215)%nat)
  then ascii_of_nat (n + 32) else c.

(** [String.prototype.toUpperCase] on one code unit. The program applies
    it only to strings of ASCII letters and digits (validated words and
    base-36 numerals), where it moves a-z down by 32 and keeps the rest. *)
Definition upperChar (c : ascii) : ascii :=
  if isLowerAZ c then ascii_of_nat (code c - 32) else c.

Fixpoint mapString (f : ascii → ascii) (s : string) : string :=
  match s with
  | EmptyString => EmptyString
  | String c r => String (f c) (mapString f r)
  end.

(** On code units below 256 [toLowerCase] acts unit by unit and keeps the
    length; [toUpperCase] does so on ASCII. *)
Definition toLowerCase (s : string) : string := mapString lowerChar s.
Definition toUpperCase (s : string) : string := mapString upperChar s.

(** [s.split('')]: the array of the one-character strings of [s]. *)
Fixpoint split (s : string) : list string :=
  match s with
  | EmptyString => []
  | String c r => String c EmptyString :: split r
  end.

(** [s.substring(start, end)] for non-negative integer arguments: both
    are clamped to the length and swapped when out of order. *)
Definition substring (start stop : nat) (s : string) : string :=
  let len := String.length s in
  let a := Nat.min start len in
  let b := Nat.min stop len in
  let from := Nat.min a b in
  let to := Nat.max a b in
  String.substring from (to - from) s.

(** White space removed by [trim], among the code units below 256. *)
Definition isSpace (c : ascii) : bool :=
  let n := code c in
  ((9 <=? n)%nat && (n <=? 13)%nat) || (n =? 32)%nat || (n =? 160)%nat.

Fixpoint trimStart (s : string) : string :=
  match s with
  | EmptyString => EmptyString
  | String c r => if isSpace c then trimStart r else s
  end.

Fixpoint trimEnd (s : string) : string :=
  match s with
  | EmptyString => EmptyString
  | String c r =>
      match trimEnd r with
      | EmptyString => if isSpace c then EmptyString else String c EmptyString
      | r' => String c r'
      end
  end.

Definition trim (s : string) : string := trimEnd (trimStart s).

(** Truthiness of a string value that may be absent ([null]). *)
Definition truthy (o : option string) : bool :=
  match o with
  | Some (String _ _) => true
  | _ => false
  end.

(** The anchored pattern [/^[A-Za-z]+$/]: one class character, then class
    characters up to the end of the input. *)
Fixpoint classToEnd (s : string) : bool :=
  match s with
  | EmptyString => true
  | String c r => inClassAZaz c && classToEnd r
  end.

Definition testLetters (s : string) : bool :=
  match s with
  | EmptyString => false
  | String c r => inClassAZaz c && classToEnd r
  end.

(** A plain object used as a counter table; [bump] is the statement
    [t[k] = (t[k] || 0) + 1]. *)
Definition bump (t : gmap string nat) (k : string) : gmap string nat :=
  <[k := default 0 (t !! k) + 1]> t.

(** [Object.keys(t)]: every own key once. The enumeration order of the
    engine is not reproduced; the one use below sums over the keys. *)
Definition keys (t : gmap string nat) : list string := (map_to_list t).*1.

(** Base-36 numeral of a digit value below 36. *)
Definition digit36 (d : nat) : ascii :=
  if (d <? 10)%nat then ascii_of_nat (48 + d) else ascii_of_nat (87 + d).

(** [x.toString(36)] for a number [0 <= x < 1], given the base-36 digits
    the engine emits after the point: ["0"] when there are none (x = 0),
    otherwise ["0."] followed by them. *)
Definition fractionToString36 (digits : list nat) : string :=
  match digits with
  | [] => "0"
  | _ => "0." +:+ string_of_list_ascii (digit36 <$> digits)
  end.

End Js.

(** ** game-logic.ts *)

Module Guess.
Record t := mk { word : string; commonLetters : nat; timestamp : Z }.
End Guess.

Inductive PlayerStatus := PPlaying | PFinished | PDisconnected.
Inductive SessionStatus := Waiting | Playing | Finished.

Module Player.
Record t := mk {
  id : string;
  name : string;
  guesses : list Guess.t;
  timeUsed : Z;
  status : PlayerStatus;
  joinedAt : Z
}.
End Player.

Module GameState.
Record t := mk {
  gameId : string;
  hostWord : string;
  players : list Player.t;
  status : SessionStatus;
  startTime : option Z
}.
End GameState.

Global Instance PlayerStatus_eq_dec : EqDecision PlayerStatus.
Proof. solve_decision. Defined.
Global Instance SessionStatus_eq_dec : EqDecision SessionStatus.
Proof. solve_decision. Defined.

Definition validateWord (word : string) : bool :=
  (String.length word =? 5)%nat && Js.testLetters word.

Definition calculateCommonLetters (hostWord guessWord : string) : nat :=
  let hostLetters := Js.split (Js.toLowerCase hostWord) in
  let guessLetters := Js.split (Js.toLowerCase guessWord) in
  let hostCount := foldl Js.bump ∅ hostLetters in
  let guessCount := foldl Js.bump ∅ guessLetters in
  foldl (λ commonLetters letter,
           match hostCount !! letter with
           | Some (S h) =>
               commonLetters + Nat.min (S h) (default 0 (guessCount !! letter))
           | _ => commonLetters
           end)
        0 (Js.keys guessCount).

Definition isWordCorrect (hostWord guessWord : string) : bool :=
  bool_decide (Js.toLowerCase hostWord = Js.toLowerCase guessWord).

(** [Math.random().toString(36).substring(2, 8).toUpperCase()], the drawn
    number being given by its base-36 digits. *)
Definition generateGameId (digits : list nat) : string :=
  Js.toUpperCase (Js.substring 2 8 (Js.fractionToString36 digits)).

(** ** Wire messages and transport calls (broadcast-manager.ts)

    One constructor per payload shape of [P2PGameEvents]. A non-host
    [makeGuess] puts [{ playerId, word }] under ['game:guess'], the host
    [{ playerId, guess }]; the two shapes are kept apart. *)

Inductive Message :=
| GameStateMsg (gameState : GameState.t)
| PlayerJoinedMsg (player : Player.t)
| GuessMsg (playerId : string) (guess : Guess.t)
| GuessWordMsg (playerId word : string)
| FinishedMsg (playerId : string) (finalTime : Z)
| ErrorMsg (message : string)
| JoinRequestMsg (player : Player.t)
| LeaveMsg (playerId : string)
| TerminatedMsg.

(** A call of the session manager on the transport adapter. *)
Inductive Call :=
| Broadcast (msg : Message)
| Send (peerId : string) (msg : Message).

(** ** p2p-game-manager.ts: the handlers *)

Module Manager.
Record t := mk {
  gameState : option GameState.t;
  isHost : bool;
  currentPlayerId : option string
}.
End Manager.

(** [this.gameState.startTime ? Math.floor((now - startTime) / 1000) : 0];
    an absent or zero [startTime] is falsy. *)
Definition elapsedSeconds (startTime : option Z) (now : Z) : Z :=
  match startTime with
  | Some s => if (s =? 0)%Z then 0%Z else ((now - s) / 1000)%Z
  | None => 0%Z
  end.

(** The completion check of [handlePlayerGuess]. *)
Definition allActiveFinished (players : list Player.t) : bool :=
  let activePlayers := filter (λ p, Player.status p ≠ PDisconnected) players in
  let finishedPlayers := filter (λ p, Player.status p = PFinished) activePlayers in
  bool_decide (length finishedPlayers = length activePlayers).

Definition broadcastGameState (m : Manager.t) : list Call :=
  match Manager.gameState m with
  | Some gs =>
      let safeGameState :=
        GameState.mk (GameState.gameId gs)
          (if Manager.isHost m then GameState.hostWord gs else "****")
          (GameState.players gs) (GameState.status gs) (GameState.startTime gs) in
      [Broadcast (GameStateMsg safeGameState)]
  | None => []
  end.

(** [now] is the clock reading used for [timeUsed], [stamp] the later one
    stored as the guess's timestamp. The player object found by [find] is
    the first one carrying [playerId]; it is updated in place, at its
    index. [guess] is a guess object, as the signature declares and as the
    host's own [makeGuess] passes it. State and calls are those of the run
    in which each transport call returns; [P2PGameManager.handlePlayerGuess]
    is the method with a call that can throw. *)
Definition handlePlayerGuess (now stamp : Z) (m : Manager.t)
    (playerId : string) (guess : Guess.t) : Manager.t * list Call :=
  match Manager.isHost m, Manager.gameState m with
  | true, Some gs =>
      match list_find (λ p, Player.id p = playerId) (GameState.players gs) with
      | None => (m, [])
      | Some (i, player) =>
          if bool_decide (Player.status player = PFinished) then (m, [])
          else if negb (validateWord (Guess.word guess)) then
            (m, [Send playerId (ErrorMsg "Invalid word. Must be a 5-letter word.")])
          else
            let commonLetters :=
              calculateCommonLetters (GameState.hostWord gs)
                (Js.toUpperCase (Guess.word guess)) in
            let timeUsed := elapsedSeconds (GameState.startTime gs) now in
            let processedGuess :=
              Guess.mk (Js.toUpperCase (Guess.word guess)) commonLetters stamp in
            let correct := isWordCorrect (GameState.hostWord gs) (Guess.word guess) in
            let player' :=
              Player.mk (Player.id player) (Player.name player)
                (Player.guesses player ++ [processedGuess])%list timeUsed
                (if correct then PFinished else Player.status player)
                (Player.joinedAt player) in
            let players' := <[i := player']> (GameState.players gs) in
            let status' :=
              if correct && allActiveFinished players' then Finished
              else GameState.status gs in
            let m' :=
              Manager.mk
                (Some (GameState.mk (GameState.gameId gs) (GameState.hostWord gs)
                         players' status' (GameState.startTime gs)))
                (Manager.isHost m) (Manager.currentPlayerId m) in
            (m',
             ((if correct then [Broadcast (FinishedMsg playerId timeUsed)] else [])
                ++ [Broadcast (GuessMsg playerId processedGuess)]
                ++ broadcastGameState m')%list)
      end
  | _, _ => (m, [])
  end.

(** Bound to ['game:join-request']. *)
Definition handleJoinRequest (m : Manager.t) (player : Player.t)
  : Manager.t * list Call :=
  match Manager.isHost m, Manager.gameState m with
  | true, Some gs =>
      match list_find (λ p, Player.name p = Player.name player)
              (GameState.players gs) with
      | Some _ =>
          (m, [Send (Player.id player)
                 (ErrorMsg "Player name already taken in this game.")])
      | None =>
          let m' :=
            Manager.mk
              (Some (GameState.mk (GameState.gameId gs) (GameState.hostWord gs)
                       (GameState.players gs ++ [player])%list
                       (GameState.status gs) (GameState.startTime gs)))
              (Manager.isHost m) (Manager.currentPlayerId m) in
          (m', Broadcast (PlayerJoinedMsg player) :: broadcastGameState m')
      end
  | _, _ => (m, [])
  end.

(** Bound to ['game:player-joined']. *)
Definition handlePlayerJoined (now : Z) (m : Manager.t) (player : Player.t)
  : Manager.t * list Call :=
  match Manager.isHost m, Manager.gameState m with
  | true, Some gs =>
      match list_find (λ p, Player.name p = Player.name player)
              (GameState.players gs) with
      | Some _ =>
          (m, [Send (Player.id player)
                 (ErrorMsg "Player name already taken in this game.")])
      | None =>
          let players' := (GameState.players gs ++ [player])%list in
          let start :=
            (2 <=? length players')%nat
            && bool_decide (GameState.status gs = Waiting) in
          let m' :=
            Manager.mk
              (Some (GameState.mk (GameState.gameId gs) (GameState.hostWord gs)
                       players'
                       (if start then Playing else GameState.status gs)
                       (if start then Some now else GameState.startTime gs)))
              (Manager.isHost m) (Manager.currentPlayerId m) in
          (m', (broadcastGameState m' ++ [Broadcast (PlayerJoinedMsg player)])%list)
      end
  | _, _ => (m, [])
  end.

(** Bound to ['game:player-left']. *)
Definition handlePlayerLeft (m : Manager.t) (playerId : string)
  : Manager.t * list Call :=
  match Manager.gameState m with
  | Some gs =>
      match list_find (λ p, Player.id p = playerId) (GameState.players gs) with
      | Some (i, player) =>
          let player' :=
            Player.mk (Player.id player) (Player.name player)
              (Player.guesses player) (Player.timeUsed player)
              PDisconnected (Player.joinedAt player) in
          let m' :=
            Manager.mk
              (Some (GameState.mk (GameState.gameId gs) (GameState.hostWord gs)
                       (<[i := player']> (GameState.players gs))
                       (GameState.status gs) (GameState.startTime gs)))
              (Manager.isHost m) (Manager.currentPlayerId m) in
          (m', if Manager.isHost m then broadcastGameState m' else [])
      | None => (m, [])
      end
  | None => (m, [])
  end.

(** Bound to ['game:state']. *)
Definition handleGameStateUpdate (m : Manager.t) (gameState : GameState.t)
  : Manager.t :=
  Manager.mk (Some gameState) (Manager.isHost m) (Manager.currentPlayerId m).

Definition isConnectedToGame (m : Manager.t) (gameId : string) : bool :=
  bool_decide (GameState.gameId <$> Manager.gameState m = Some gameId)
  && bool_decide (Manager.currentPlayerId m ≠ None).

(** [makeGuess]: the host scores its own guess, any other process hands
    the word to the transport. [made] is the clock reading stored in the
    provisional guess object. *)
Definition makeGuess (made now stamp : Z) (m : Manager.t) (word : string)
  : Manager.t * list Call :=
  match Manager.currentPlayerId m with
  | Some (String _ _ as me) =>
      match Manager.isHost m, Manager.gameState m with
      | true, Some _ => handlePlayerGuess now stamp m me (Guess.mk word 0 made)
      | _, _ => (m, [Broadcast (GuessWordMsg me word)])
      end
  | _ => (m, [])
  end.

(** ** The process around the handlers

    [createGame], [joinGame], [leaveGame] and [reconnectToGame] also touch
    the transport object, [localStorage] and may throw. They are written
    in a state-and-exception monad over the process environment; state
    written before a throw stays written. The environment is the browser
    one ([window] is defined). An [await] is taken as running on without
    another event in between. A posted message keeps its channel, sender,
    optional target and payload; its timestamp field, which no handler
    reads, is left out. *)

Module Channel.
Record t := mk { name : string; closed : bool }.
End Channel.

Module BroadcastManager.
Record t := mk {
  channel : option Channel.t;
  isHost : bool;
  gameId : option string;
  myId : string
}.
End BroadcastManager.

Module P2PMessage.
Record t := mk {
  channelName : string;
  target : option string;
  body : Message;
  senderId : string
}.
End P2PMessage.

Module Env.
Record t := mk {
  manager : Manager.t;
  transport : BroadcastManager.t;
  localStorage : gmap string string;
  posted : list P2PMessage.t
}.
End Env.

Inductive Result (A : Type) :=
| Returned (a : A) (e : Env.t)
| Threw (error : string) (e : Env.t).
Arguments Returned {A} a e.
Arguments Threw {A} error e.

Definition Eff (A : Type) : Type := Env.t → Result A.

Global Instance Eff_ret : MRet Eff := λ A a e, Returned a e.
Global Instance Eff_bind : MBind Eff := λ A B f c e,
  match c e with
  | Returned a e' => f a e'
  | Threw error e' => Threw error e'
  end.

Definition throw {A} (error : string) : Eff A := λ e, Threw error e.

Definition getManager : Eff Manager.t := λ e, Returned (Env.manager e) e.
Definition setManager (m : Manager.t) : Eff unit := λ e,
  Returned () (Env.mk m (Env.transport e) (Env.localStorage e) (Env.posted e)).
Definition getTransport : Eff BroadcastManager.t := λ e,
  Returned (Env.transport e) e.
Definition setTransport (b : BroadcastManager.t) : Eff unit := λ e,
  Returned () (Env.mk (Env.manager e) b (Env.localStorage e) (Env.posted e)).

Module localStorage.
Definition getItem (key : string) : Eff (option string) := λ e,
  Returned (Env.localStorage e !! key) e.
Definition setItem (key value : string) : Eff unit := λ e,
  Returned ()
    (Env.mk (Env.manager e) (Env.transport e)
       (<[key := value]> (Env.localStorage e)) (Env.posted e)).
Definition removeItem (key : string) : Eff unit := λ e,
  Returned ()
    (Env.mk (Env.manager e) (Env.transport e)
       (delete key (Env.localStorage e)) (Env.posted e)).
End localStorage.

(** [channel.postMessage]: a closed channel throws. *)
Definition postMessage (c : Channel.t) (target : option string) (msg : Message)
  : Eff unit := λ e,
  if Channel.closed c then Threw "InvalidStateError" e
  else
    Returned ()
      (Env.mk (Env.manager e) (Env.transport e) (Env.localStorage e)
         (Env.posted e ++
            [P2PMessage.mk (Channel.name c) target msg
               (BroadcastManager.myId (Env.transport e))])%list).

Definition dquote : string := String (ascii_of_nat 34) EmptyString.

(** [JSON.stringify({ hostId, gameId, timestamp })] for identifiers made
    of letters and digits, which need no escaping. *)
Definition stringifyHostInfo (hostId gameId : string) (timestamp : Z) : string :=
  "{" +:+ dquote +:+ "hostId" +:+ dquote +:+ ":" +:+ dquote +:+ hostId +:+ dquote
  +:+ "," +:+ dquote +:+ "gameId" +:+ dquote +:+ ":" +:+ dquote +:+ gameId +:+ dquote
  +:+ "," +:+ dquote +:+ "timestamp" +:+ dquote +:+ ":" +:+ pretty timestamp +:+ "}".

(** The methods of the transport object. *)
Module broadcastManager.

Definition broadcast (msg : Message) : Eff unit :=
  b ← getTransport;
  match BroadcastManager.channel b with
  | None => mret ()
  | Some c => postMessage c None msg
  end.

Definition send (peerId : string) (msg : Message) : Eff unit :=
  b ← getTransport;
  match BroadcastManager.channel b with
  | Some c => postMessage c (Some peerId) msg
  | None => mret ()
  end.

(** [registered] is the clock reading put into the host advertisement. *)
Definition createGame (registered : Z) (gameId : string) : Eff string :=
  b ← getTransport;
  setTransport
    (BroadcastManager.mk (Some (Channel.mk ("jotto-game-" +:+ gameId) false))
       true (Some gameId) (BroadcastManager.myId b));;
  localStorage.setItem ("jotto-host-" +:+ gameId)
    (stringifyHostInfo (BroadcastManager.myId b) gameId registered);;
  mret (BroadcastManager.myId b).

Definition joinGame (gameId : string) : Eff unit :=
  hostInfo ← localStorage.getItem ("jotto-host-" +:+ gameId);
  if negb (Js.truthy hostInfo) then
    throw "Game not found. The host may have left or the game may not exist."
  else
    b ← getTransport;
    setTransport
      (BroadcastManager.mk (Some (Channel.mk ("jotto-game-" +:+ gameId) false))
         (BroadcastManager.isHost b) (Some gameId) (BroadcastManager.myId b)).

Definition cleanup : Eff unit :=
  b ← getTransport;
  match BroadcastManager.isHost b, BroadcastManager.gameId b with
  | true, Some (String _ _ as gameId) =>
      broadcast TerminatedMsg;;
      localStorage.removeItem ("jotto-host-" +:+ gameId);;
      localStorage.removeItem ("jotto-game-" +:+ gameId)
  | _, _ => mret ()
  end;;
  match BroadcastManager.channel b with
  | Some c =>
      setTransport
        (BroadcastManager.mk (Some (Channel.mk (Channel.name c) true))
           (BroadcastManager.isHost b) (BroadcastManager.gameId b)
           (BroadcastManager.myId b))
  | None => mret ()
  end.

(** [fresh] is the identifier drawn by [generateId]. *)
Definition disconnect (fresh : string) : Eff unit :=
  cleanup;;
  b ← getTransport;
  setTransport
    (BroadcastManager.mk (BroadcastManager.channel b) false None fresh).

End broadcastManager.

(** Carrying out the calls a handler returned. *)
Fixpoint perform (calls : list Call) : Eff unit :=
  match calls with
  | [] => mret ()
  | Broadcast msg :: rest => broadcastManager.broadcast msg;; perform rest
  | Send peerId msg :: rest => broadcastManager.send peerId msg;; perform rest
  end.

(** [P2PGameManager.createGame]. [digits] is the draw behind the game id,
    [joined], [started] and [registered] are the clock readings. *)
Definition createGame (digits : list nat) (joined started registered : Z)
    (hostWord playerName : string) : Eff string :=
  if negb (validateWord hostWord) then
    throw "Invalid host word. Must be a 5-letter word."
  else if negb (Js.truthy (Some (Js.trim playerName))) then
    throw "Player name is required."
  else
    b ← getTransport;
    let me := BroadcastManager.myId b in
    let gameId := generateGameId digits in
    let hostPlayer :=
      Player.mk me (Js.trim playerName) [] 0 PPlaying joined in
    let m :=
      Manager.mk
        (Some (GameState.mk gameId (Js.toUpperCase hostWord) [hostPlayer]
                 Waiting (Some started)))
        true (Some me) in
    setManager m;;
    broadcastManager.createGame registered gameId;;
    localStorage.setItem ("jotto-player-name-" +:+ gameId) (Js.trim playerName);;
    perform (broadcastGameState m);;
    mret gameId.

(** [P2PGameManager.joinGame]. *)
Definition joinGame (joined : Z) (gameId playerName : string) : Eff unit :=
  if negb (Js.truthy (Some (Js.trim playerName))) then
    throw "Player name is required."
  else
    b ← getTransport;
    m ← getManager;
    let me := BroadcastManager.myId b in
    setManager (Manager.mk (Manager.gameState m) (Manager.isHost m) (Some me));;
    let newPlayer := Player.mk me (Js.trim playerName) [] 0 PPlaying joined in
    broadcastManager.joinGame gameId;;
    localStorage.setItem ("jotto-player-name-" +:+ gameId) (Js.trim playerName);;
    broadcastManager.broadcast (JoinRequestMsg newPlayer).

(** [P2PGameManager.leaveGame]. *)
Definition leaveGame (fresh : string) : Eff unit :=
  m ← getManager;
  match Manager.currentPlayerId m with
  | Some (String _ _ as me) => broadcastManager.broadcast (LeaveMsg me)
  | _ => mret ()
  end;;
  broadcastManager.disconnect fresh;;
  setManager (Manager.mk None false None).

(** [P2PGameManager.reconnectToGame]. *)
Definition reconnectToGame (fresh : string) (joined : Z) (gameId : string)
  : Eff unit :=
  m ← getManager;
  if isConnectedToGame m gameId then mret ()
  else
    hostInfo ← localStorage.getItem ("jotto-host-" +:+ gameId);
    if negb (Js.truthy hostInfo) then
      throw "Game not found. The host may have left or the game may not exist."
    else
      match Manager.gameState m with
      | Some gs =>
          if bool_decide (GameState.gameId gs ≠ gameId) then leaveGame fresh
          else mret ()
      | None => mret ()
      end;;
      savedPlayerName ← localStorage.getItem ("jotto-player-name-" +:+ gameId);
      match savedPlayerName with
      | Some (String _ _ as name) => joinGame joined gameId name
      | _ =>
          throw "Cannot reconnect: player name not found. Please join the game manually."
      end.

(** ** Vocabulary of the statements *)

Local Open Scope nat_scope.

Definition chars (s : string) : list ascii := list_ascii_of_string s.

(** An alphabetic character: A-Z or a-z. *)
Definition isLetter (c : ascii) : Prop :=
  (65 ≤ Js.code c ∧ Js.code c ≤ 90) ∨ (97 ≤ Js.code c ∧ Js.code c ≤ 122).

Definition isDigitOrCapital (c : ascii) : Prop :=
  (48 ≤ Js.code c ∧ Js.code c ≤ 57) ∨ (65 ≤ Js.code c ∧ Js.code c ≤ 90).

(** The letters of a word with case folded, as the scoring reads them. *)
Definition letters (w : string) : list ascii := chars (Js.toLowerCase w).

(** Two words are anagrams when their letters agree as multisets. *)
Definition anagrams (w1 w2 : string) : Prop := Permutation (letters w1) (letters w2).

(** Number of occurrences of a key in a list of keys. *)
Definition occ (k : string) (l : list string) : nat :=
  length (filter (λ x, x = k) l).

(** The score, as a sum over a list [L] of keys. *)
Definition overlap (hs gs L : list string) : nat :=
  sum_list_with (λ k, Nat.min (occ k hs) (occ k gs)) L.

(** The players and the start stamp of the session a manager holds. *)
Definition playersOf (m : Manager.t) : list Player.t :=
  from_option GameState.players [] (Manager.gameState m).

Definition statusOf (m : Manager.t) : option SessionStatus :=
  GameState.status <$> Manager.gameState m.

Definition startOf (m : Manager.t) : option Z :=
  Manager.gameState m ≫= GameState.startTime.

(** Every player that is not disconnected has finished. *)
Definition everyActiveFinished (players : list Player.t) : Prop :=
  ∀ p, p ∈ players → Player.status p ≠ PDisconnected → Player.status p = PFinished.

(** A capital letter A-Z. *)
Definition isCapital (c : ascii) : Prop := 65 ≤ Js.code c ∧ Js.code c ≤ 90.

(** Host-side events and the runs they drive. *)
Inductive Event :=
| JoinRequest (player : Player.t)
| PlayerJoined (now : Z) (player : Player.t)
| PlayerGuess (now stamp : Z) (playerId : string) (guess : Guess.t)
| PlayerLeft (playerId : string).

Definition step (m : Manager.t) (ev : Event) : Manager.t :=
  match ev with
  | JoinRequest player => (handleJoinRequest m player).1
  | PlayerJoined now player => (handlePlayerJoined now m player).1
  | PlayerGuess now stamp playerId guess =>
      (handlePlayerGuess now stamp m playerId guess).1
  | PlayerLeft playerId => (handlePlayerLeft m playerId).1
  end.

(** The transport calls an event makes. *)
Definition callsOf (m : Manager.t) (ev : Event) : list Call :=
  match ev with
  | JoinRequest player => (handleJoinRequest m player).2
  | PlayerJoined now player => (handlePlayerJoined now m player).2
  | PlayerGuess now stamp playerId guess =>
      (handlePlayerGuess now stamp m playerId guess).2
  | PlayerLeft playerId => (handlePlayerLeft m playerId).2
  end.

Definition run (m : Manager.t) (evs : list Event) : Manager.t := foldl step m evs.

(** The states a run passes through, the initial one excluded. *)
Fixpoint states (m : Manager.t) (evs : list Event) : list Manager.t :=
  match evs with
  | [] => []
  | ev :: rest => step m ev :: states (step m ev) rest
  end.

(** Clock readings of an event, in program order. *)
Definition readings (ev : Event) : list Z :=
  match ev with
  | PlayerJoined now _ => [now]
  | PlayerGuess now stamp _ _ => [now; stamp]
  | _ => []
  end.

Fixpoint nondecreasing (last : Z) (ts : list Z) : Prop :=
  match ts with
  | [] => True
  | t :: rest => (last ≤ t)%Z ∧ nondecreasing t rest
  end.

(** A joining player record as [joinGame] builds it starts at zero. *)
Definition freshJoin (ev : Event) : Prop :=
  match ev with
  | JoinRequest player | PlayerJoined _ player => Player.timeUsed player = 0%Z
  | _ => True
  end.

(** The clock after a list of readings taken from [last] on. *)
Fixpoint clockAfter (last : Z) (ts : list Z) : Z :=
  match ts with
  | [] => last
  | t :: rest => clockAfter t rest
  end.

(** At clock reading [clock] no recorded [timeUsed] is ahead of the
    elapsed time, and the start stamp is not in the future. *)
Definition timeInv (clock : Z) (m : Manager.t) : Prop :=
  from_option (λ s, (s ≤ clock)%Z) True (startOf m) ∧
  Forall (λ p, (Player.timeUsed p ≤ elapsedSeconds (startOf m) clock)%Z)
    (playersOf m).

(** [reconnectToGame] leaves the current session first when it belongs to
    another game. *)
Definition needsLeave (m : Manager.t) (gameId : string) : bool :=
  match Manager.gameState m with
  | Some gs => bool_decide (GameState.gameId gs ≠ gameId)
  | None => false
  end.

Definition isJoinRequest (msg : P2PMessage.t) : bool :=
  match P2PMessage.body msg with
  | JoinRequestMsg _ => true
  | _ => false
  end.

(** The channel object is there and has been closed ([cleanup] closes it
    and keeps it). *)
Definition channelClosed (b : BroadcastManager.t) : bool :=
  match BroadcastManager.channel b with
  | Some c => Channel.closed c
  | None => false
  end.

(** [leaveGame] calls [broadcast]: with the leave message when the process
    has a player id, with the termination message (in [cleanup]) when the
    transport hosts a game. *)
Definition leavePosts (e : Env.t) : bool :=
  Js.truthy (Manager.currentPlayerId (Env.manager e))
  || (BroadcastManager.isHost (Env.transport e)
      && Js.truthy (BroadcastManager.gameId (Env.transport e))).

(** The leave that [reconnectToGame] starts with throws. *)
Definition leaveThrows (e : Env.t) (gameId : string) : bool :=
  needsLeave (Env.manager e) gameId && channelClosed (Env.transport e)
  && leavePosts e.

(** ** Scenario data *)

Definition alice : Player.t := Player.mk "peer1" "Alice" [] 0 PPlaying 1000.
Definition bob : Player.t := Player.mk "peer2" "Bob" [] 0 PPlaying 2000.

(** A process that has not joined anything yet. *)
Definition idle (myId : string) : Env.t :=
  Env.mk (Manager.mk None false None)
    (BroadcastManager.mk None false None myId) ∅ [].

(** A process without session that remembers the name Bob for game
    123ZAB, whose host advertisement is present. *)
Definition remembering : Env.t :=
  Env.mk (Manager.mk None false None)
    (BroadcastManager.mk None false None "peer2")
    (<["jotto-player-name-123ZAB" := "Bob"]>
       (<["jotto-host-123ZAB" := stringifyHostInfo "peer1" "123ZAB" 1001]> ∅))
    [].

(** A player of game 999XYZ, its channel open, who remembers the name Bob
    for game 123ZAB. *)
Definition elsewhere : Env.t :=
  Env.mk
    (Manager.mk
       (Some (GameState.mk "999XYZ" "GRAPE"
                [Player.mk "peer7" "Carol" [] 0 PPlaying 500; bob]
                Playing (Some 2100%Z)))
       false (Some "peer2"))
    (BroadcastManager.mk (Some (Channel.mk "jotto-game-999XYZ" false))
       false (Some "999XYZ") "peer2")
    (Env.localStorage remembering) [].

(** The host of game 999XYZ after its page was hidden once: [cleanup] has
    closed the channel and withdrawn the advertisement, the manager still
    holds the game. It remembers the name Bob for game 123ZAB. *)
Definition hiddenHost : Env.t :=
  Env.mk
    (Manager.mk
       (Some (GameState.mk "999XYZ" "GRAPE"
                [Player.mk "peer2" "Bob" [] 0 PPlaying 500] Waiting (Some 500%Z)))
       true (Some "peer2"))
    (BroadcastManager.mk (Some (Channel.mk "jotto-game-999XYZ" true))
       true (Some "999XYZ") "peer2")
    (Env.localStorage remembering) [].

(** The host's manager right after [createGame] with secret HOUSE. *)
Definition hosting : Manager.t :=
  Manager.mk
    (Some (GameState.mk "123ZAB" "HOUSE" [alice] Waiting (Some 1000%Z)))
    true (Some "peer1").

(** ** Further functions of the sources *)

(** [calculateScore] of game-logic.ts. *)
Definition calculateScore (guesses : list Guess.t) (timeUsed : Z) : Z :=
  let guessCount := Z.of_nat (length guesses) in
  let timeBonus := Z.max 0 (300 - timeUsed) in
  let guessBonus := (Z.max 0 (20 - guessCount) * 10)%Z in
  (timeBonus + guessBonus)%Z.

(** [P2PGameManager.getCurrentPlayer]. *)
Definition getCurrentPlayer (m : Manager.t) : option Player.t :=
  match Manager.gameState m, Manager.currentPlayerId m with
  | Some gs, Some (String _ _ as me) =>
      snd <$> list_find (λ p, Player.id p = me) (GameState.players gs)
  | _, _ => None
  end.

(** [P2PGameManager.handleGameTerminated], the navigation apart. *)
Definition handleGameTerminated (m : Manager.t) : Manager.t :=
  Manager.mk None false None.

(** What the manager's own listeners make of an inbound message:
    [channel.onmessage] followed by [handleMessage]. A message of the
    process itself is dropped. Under ['game:guess'] the listener is called
    with [data.playerId] and [data.guess]; the payload of a non-host
    [makeGuess] has no [guess] field, so the handler receives [undefined]
    and reading its [word] throws once the guards before it are passed.
    ['game:error'] is logged, ['game:finished'] does nothing and
    ['game:leave'] has no listener in the manager. *)
Inductive Outcome :=
| Handled (m : Manager.t) (calls : list Call)
| TypeError.

Definition onmessage (now stamp : Z) (b : BroadcastManager.t) (m : Manager.t)
    (message : P2PMessage.t) : Outcome :=
  if bool_decide (P2PMessage.senderId message = BroadcastManager.myId b)
  then Handled m []
  else
    match P2PMessage.body message with
    | GuessMsg playerId guess =>
        let r := handlePlayerGuess now stamp m playerId guess in
        Handled r.1 r.2
    | GuessWordMsg playerId _ =>
        match Manager.isHost m, Manager.gameState m with
        | true, Some gs =>
            match list_find (λ p, Player.id p = playerId)
                    (GameState.players gs) with
            | None => Handled m []
            | Some (_, player) =>
                if bool_decide (Player.status player = PFinished)
                then Handled m []
                else TypeError
            end
        | _, _ => Handled m []
        end
    | GameStateMsg gameState => Handled (handleGameStateUpdate m gameState) []
    | PlayerJoinedMsg player =>
        let r := handlePlayerJoined now m player in
        Handled r.1 r.2
    | JoinRequestMsg player =>
        let r := handleJoinRequest m player in
        Handled r.1 r.2
    | FinishedMsg _ _ => Handled m []
    | ErrorMsg _ => Handled m []
    | LeaveMsg _ => Handled m []
    | TerminatedMsg => Handled (handleGameTerminated m) []
    end.

(** The handlers as methods of the process: the manager is written as the
    source writes it, statement by statement, and each transport call is
    made when the source makes it. A call that throws leaves what was
    written before it and skips what comes after. *)
Module P2PGameManager.

(** An assignment to a field of [this.gameState] or of one of its
    players: the game state object is replaced by the updated one. *)
Definition setGameState (gs : GameState.t) : Eff unit :=
  m ← getManager;
  setManager (Manager.mk (Some gs) (Manager.isHost m) (Manager.currentPlayerId m)).

Definition broadcastGameState : Eff unit :=
  m ← getManager;
  perform (broadcastGameState m).

Definition handlePlayerGuess (now stamp : Z) (playerId : string) (guess : Guess.t)
  : Eff unit :=
  m ← getManager;
  match Manager.isHost m, Manager.gameState m with
  | true, Some gs =>
      match list_find (λ p, Player.id p = playerId) (GameState.players gs) with
      | None => mret ()
      | Some (i, player) =>
          if bool_decide (Player.status player = PFinished) then mret ()
          else if negb (validateWord (Guess.word guess)) then
            broadcastManager.send playerId
              (ErrorMsg "Invalid word. Must be a 5-letter word.")
          else
            let commonLetters :=
              calculateCommonLetters (GameState.hostWord gs)
                (Js.toUpperCase (Guess.word guess)) in
            let timeUsed := elapsedSeconds (GameState.startTime gs) now in
            let processedGuess :=
              Guess.mk (Js.toUpperCase (Guess.word guess)) commonLetters stamp in
            let recorded :=
              Player.mk (Player.id player) (Player.name player)
                (Player.guesses player ++ [processedGuess])%list timeUsed
                (Player.status player) (Player.joinedAt player) in
            setGameState
              (GameState.mk (GameState.gameId gs) (GameState.hostWord gs)
                 (<[i := recorded]> (GameState.players gs))
                 (GameState.status gs) (GameState.startTime gs));;
            (if isWordCorrect (GameState.hostWord gs) (Guess.word guess) then
               let finished :=
                 Player.mk (Player.id player) (Player.name player)
                   (Player.guesses player ++ [processedGuess])%list timeUsed
                   PFinished (Player.joinedAt player) in
               let players' := <[i := finished]> (GameState.players gs) in
               setGameState
                 (GameState.mk (GameState.gameId gs) (GameState.hostWord gs)
                    players' (GameState.status gs) (GameState.startTime gs));;
               broadcastManager.broadcast (FinishedMsg playerId timeUsed);;
               if allActiveFinished players' then
                 setGameState
                   (GameState.mk (GameState.gameId gs) (GameState.hostWord gs)
                      players' Finished (GameState.startTime gs))
               else mret ()
             else mret ());;
            broadcastManager.broadcast (GuessMsg playerId processedGuess);;
            broadcastGameState
      end
  | _, _ => mret ()
  end.

Definition handleJoinRequest (player : Player.t) : Eff unit :=
  m ← getManager;
  match Manager.isHost m, Manager.gameState m with
  | true, Some gs =>
      match list_find (λ p, Player.name p = Player.name player)
              (GameState.players gs) with
      | Some _ =>
          broadcastManager.send (Player.id player)
            (ErrorMsg "Player name already taken in this game.")
      | None =>
          setGameState
            (GameState.mk (GameState.gameId gs) (GameState.hostWord gs)
               (GameState.players gs ++ [player])%list
               (GameState.status gs) (GameState.startTime gs));;
          broadcastManager.broadcast (PlayerJoinedMsg player);;
          broadcastGameState
      end
  | _, _ => mret ()
  end.

Definition handlePlayerJoined (now : Z) (player : Player.t) : Eff unit :=
  m ← getManager;
  match Manager.isHost m, Manager.gameState m with
  | true, Some gs =>
      match list_find (λ p, Player.name p = Player.name player)
              (GameState.players gs) with
      | Some _ =>
          broadcastManager.send (Player.id player)
            (ErrorMsg "Player name already taken in this game.")
      | None =>
          let players' := (GameState.players gs ++ [player])%list in
          setGameState
            (GameState.mk (GameState.gameId gs) (GameState.hostWord gs)
               players' (GameState.status gs) (GameState.startTime gs));;
          (if (2 <=? length players')%nat
              && bool_decide (GameState.status gs = Waiting) then
             setGameState
               (GameState.mk (GameState.gameId gs) (GameState.hostWord gs)
                  players' Playing (Some now))
           else mret ());;
          broadcastGameState;;
          broadcastManager.broadcast (PlayerJoinedMsg player)
      end
  | _, _ => mret ()
  end.

Definition handlePlayerLeft (playerId : string) : Eff unit :=
  m ← getManager;
  match Manager.gameState m with
  | Some gs =>
      match list_find (λ p, Player.id p = playerId) (GameState.players gs) with
      | Some (i, player) =>
          let left :=
            Player.mk (Player.id player) (Player.name player)
              (Player.guesses player) (Player.timeUsed player)
              PDisconnected (Player.joinedAt player) in
          setGameState
            (GameState.mk (GameState.gameId gs) (GameState.hostWord gs)
               (<[i := left]> (GameState.players gs))
               (GameState.status gs) (GameState.startTime gs));;
          if Manager.isHost m then broadcastGameState else mret ()
      | None => mret ()
      end
  | None => mret ()
  end.

(** The handler an event sets off. *)
Definition handle (ev : Event) : Eff unit :=
  match ev with
  | JoinRequest player => handleJoinRequest player
  | PlayerJoined now player => handlePlayerJoined now player
  | PlayerGuess now stamp playerId guess =>
      handlePlayerGuess now stamp playerId guess
  | PlayerLeft playerId => handlePlayerLeft playerId
  end.

End P2PGameManager.

(** The environment a call ends in, returned or thrown. *)
Definition envOf {A} (r : Result A) : Env.t :=
  match r with
  | Returned _ e | Threw _ e => e
  end.

(** The channel takes a post: it is open, or there is none (then
    [broadcast] and [send] return without posting). *)
Definition channelUsable (b : BroadcastManager.t) : bool :=
  negb (channelClosed b).

(** The messages the calls of a handler become on channel [name], posted
    by [sender]. *)
Definition postedAs (name sender : string) (calls : list Call) : list P2PMessage.t :=
  (λ call,
     match call with
     | Broadcast msg => P2PMessage.mk name None msg sender
     | Send peerId msg => P2PMessage.mk name (Some peerId) msg sender
     end) <$> calls.

(** The host of game 123ZAB in its process, the channel [closed] or not. *)
Definition hostProcess (closed : bool) : Env.t :=
  Env.mk hosting
    (BroadcastManager.mk (Some (Channel.mk "jotto-game-123ZAB" closed))
       true (Some "123ZAB") "peer1")
    ∅ [].

(** The listener registry of the transport, [eventListeners]: per event
    name the callbacks in registration order. A callback is a function
    value compared by identity; it is represented by a number. *)
Module Listeners.

(** [indexOf] followed by [splice(index, 1)]: the first occurrence goes. *)
Fixpoint removeFirst (callback : nat) (listeners : list nat) : list nat :=
  match listeners with
  | [] => []
  | c :: rest =>
      if bool_decide (c = callback) then rest else c :: removeFirst callback rest
  end.

Definition on (event : string) (callback : nat) (registry : gmap string (list nat))
  : gmap string (list nat) :=
  <[event := (default [] (registry !! event) ++ [callback])%list]> registry.

(** The array found under the event is spliced in place; without an entry
    the splice hits a temporary array. *)
Definition off (event : string) (callback : nat) (registry : gmap string (list nat))
  : gmap string (list nat) :=
  match registry !! event with
  | Some listeners => <[event := removeFirst callback listeners]> registry
  | None => registry
  end.

(** The callbacks [handleMessage] invokes for an event, in order. *)
Definition invoked (event : string) (registry : gmap string (list nat)) : list nat :=
  default [] (registry !! event).

End Listeners.

(** The comparator of the leaderboard ([leaderboard.tsx]): finished
    players first, then by time, then by number of guesses. *)
Definition leaderboardCompare (a b : Player.t) : Z :=
  let guessesA := Z.of_nat (length (Player.guesses a)) in
  let guessesB := Z.of_nat (length (Player.guesses b)) in
  if bool_decide (Player.status a = PFinished)
     && bool_decide (Player.status b ≠ PFinished) then (-1)%Z
  else if bool_decide (Player.status b = PFinished)
          && bool_decide (Player.status a ≠ PFinished) then 1%Z
  else if bool_decide (Player.status a = PFinished)
          && bool_decide (Player.status b = PFinished) then
    if bool_decide (Player.timeUsed a ≠ Player.timeUsed b)
    then (Player.timeUsed a - Player.timeUsed b)%Z
    else (guessesA - guessesB)%Z
  else (guessesA - guessesB)%Z.

(** ** Further vocabulary *)

(** All transport calls made along a run. *)
Fixpoint allCalls (m : Manager.t) (evs : list Event) : list Call :=
  match evs with
  | [] => []
  | ev :: rest => (callsOf m ev ++ allCalls (step m ev) rest)%list
  end.

(** The session statuses in the order the session moves through them. *)
Definition rank (status : SessionStatus) : nat :=
  match status with
  | Waiting => 0
  | Playing => 1
  | Finished => 2
  end.

(** A player record with its status left out. *)
Definition withoutStatus (p : Player.t) : string * string * list Guess.t * Z * Z :=
  (Player.id p, Player.name p, Player.guesses p, Player.timeUsed p,
   Player.joinedAt p).

(** A recorded guess: a valid word in capitals, scored against the
    secret. *)
Definition scored (hostWord : string) (g : Guess.t) : Prop :=
  validateWord (Guess.word g) = true ∧
  Forall isCapital (chars (Guess.word g)) ∧
  Guess.commonLetters g = calculateCommonLetters hostWord (Guess.word g).

Definition guessesScored (m : Manager.t) : Prop :=
  ∀ gs, Manager.gameState m = Some gs →
    Forall (λ p, Forall (scored (GameState.hostWord gs)) (Player.guesses p))
      (GameState.players gs).

(** A joining player record as [joinGame] builds it has no guesses. *)
Definition noGuessJoin (ev : Event) : Prop :=
  match ev with
  | JoinRequest player | PlayerJoined _ player => Player.guesses player = []
  | _ => True
  end.

(** * Properties *)

(** ** Word validation *)

Lemma inClassAZaz_isLetter c : Js.inClassAZaz c = true ↔ isLetter c.
Proof.
  unfold Js.inClassAZaz, Js.isUpperAZ, Js.isLowerAZ, isLetter.
  rewrite orb_true_iff, !andb_true_iff, !Nat.leb_le. tauto.
Qed.

Lemma classToEnd_spec s :
  Js.classToEnd s = true ↔ ∀ c, In c (chars s) → isLetter c.
Proof.
  induction s as [|a s IH]; simpl.
  - split; [intros _ c [] | done].
  - rewrite andb_true_iff, IH, inClassAZaz_isLetter. split.
    + intros [Ha Hs] c [<-|Hc]; auto.
    + intros H. split; [apply H; by left | intros c Hc; apply H; by right].
Qed.

Lemma length_chars s : length (chars s) = String.length s.
Proof. induction s; simpl; congruence. Qed.

(** C8. [validateWord] accepts exactly the strings of five characters that
    are all alphabetic; a string of another length or with a character
    outside A-Z, a-z is rejected, whatever the case mix of the letters. *)
Theorem validateWord_iff (word : string) :
  validateWord word = true ↔
  String.length word = 5 ∧ ∀ c, In c (chars word) → isLetter c.
Proof.
  unfold validateWord. rewrite andb_true_iff, Nat.eqb_eq.
  destruct word as [|a w].
  - simpl. split; intros [? ?]; discriminate.
  - change (Js.testLetters (String a w)) with (Js.classToEnd (String a w)).
    by rewrite classToEnd_spec.
Qed.

(** ** Game identifiers *)

Lemma length_mapString f s : String.length (Js.mapString f s) = String.length s.
Proof. induction s; simpl; congruence. Qed.

Lemma chars_mapString f s : chars (Js.mapString f s) = f <$> chars s.
Proof. induction s; simpl; [done|]. by f_equal. Qed.

Lemma length_substring0 n s : String.length (String.substring 0 n s) ≤ n.
Proof.
  revert n. induction s as [|a s IH]; intros [|n]; simpl; try lia.
  specialize (IH n). lia.
Qed.

Lemma chars_substring0 n s c :
  In c (chars (String.substring 0 n s)) → In c (chars s).
Proof.
  revert n. induction s as [|a s IH]; intros [|n]; simpl; try tauto.
  intros [->|H]; [by left | right; eauto].
Qed.

Lemma substring_2_8 a b s :
  Js.substring 2 8 (String a (String b s))
  = String.substring 0 (Nat.min 6 (String.length s)) s.
Proof.
  unfold Js.substring. cbn [String.length].
  replace (Nat.min 2 (S (S (String.length s)))) with 2 by lia.
  replace (Nat.min 8 (S (S (String.length s))))
    with (S (S (Nat.min 6 (String.length s)))) by lia.
  replace (Nat.min 2 (S (S (Nat.min 6 (String.length s))))) with 2 by lia.
  replace (Nat.max 2 (S (S (Nat.min 6 (String.length s)))))
    with (S (S (Nat.min 6 (String.length s)))) by lia.
  replace (S (S (Nat.min 6 (String.length s))) - 2)
    with (Nat.min 6 (String.length s)) by lia.
  reflexivity.
Qed.

Lemma chars_string_of_list l : chars (string_of_list_ascii l) = l.
Proof. apply list_ascii_of_string_of_list_ascii. Qed.

Lemma upper_digit36 d :
  d < 36 → isDigitOrCapital (Js.upperChar (Js.digit36 d)).
Proof.
  intros Hd. unfold isDigitOrCapital.
  do 36 (destruct d as [|d]; [vm_compute; lia|]). lia.
Qed.

(** C10. Whatever digits the random draw produces, [generateGameId] yields
    at most six characters, each a digit or a capital letter; and some
    draws yield fewer than six (the draw 0.5 prints as "0.i" and gives the
    one-character id "I"), so the length is not fixed. *)
Theorem generateGameId_shape :
  (∀ digits, Forall (λ d, d < 36) digits →
     String.length (generateGameId digits) ≤ 6 ∧
     ∀ c, In c (chars (generateGameId digits)) → isDigitOrCapital c) ∧
  (∃ digits, Forall (λ d, d < 36) digits ∧
     String.length (generateGameId digits) < 6).
Proof.
  split.
  - intros digits Hd. unfold generateGameId, Js.toUpperCase.
    rewrite length_mapString.
    destruct digits as [|d ds].
    + split; [vm_compute; lia | intros c []].
    + unfold Js.fractionToString36.
      change ("0." +:+ ?s) with (String "0" (String "." s)).
      rewrite substring_2_8. split.
      * etrans; [apply length_substring0 | lia].
      * intros c. rewrite chars_mapString.
        intros Hc. apply list_elem_of_In, list_elem_of_fmap in Hc as (x & -> & Hx).
        apply list_elem_of_In, chars_substring0 in Hx.
        rewrite chars_string_of_list in Hx.
        apply list_elem_of_In, list_elem_of_fmap in Hx as (n & -> & Hn).
        apply upper_digit36.
        by eapply (proj1 (Forall_forall _ _) Hd).
  - exists [18]. split; [repeat constructor; lia | vm_compute; lia].
Qed.

Lemma generateGameId_shape_witness :
  String.length (generateGameId [18]) ≤ 6 ∧
  ∀ c, In c (chars (generateGameId [18])) → isDigitOrCapital c.
Proof.
  apply (proj1 generateGameId_shape [18]).
  repeat constructor; lia.
Defined.

(** ** Common-letter scoring *)

Section Counting.
Implicit Types (k a : string) (l hs gs L : list string) (f g : string → nat).

Lemma occ_nil k : occ k [] = 0.
Proof. reflexivity. Qed.

Lemma occ_cons k a l :
  occ k (a :: l) = (if decide (a = k) then 1 else 0) + occ k l.
Proof. unfold occ. rewrite filter_cons. by case_decide. Qed.

Lemma occ_pos k l : 0 < occ k l ↔ k ∈ l.
Proof.
  induction l as [|a l IH].
  - rewrite occ_nil, elem_of_nil. lia.
  - rewrite occ_cons, elem_of_cons. case_decide; subst; [intuition lia|].
    rewrite <- IH. intuition (congruence || lia).
Qed.

Lemma occ_Permutation k l1 l2 : l1 ≡ₚ l2 → occ k l1 = occ k l2.
Proof.
  induction 1 as [|x l1 l2 _ IH|x y l|l1 l2 l3 _ IH1 _ IH2];
    rewrite ?occ_cons; lia.
Qed.

Lemma lookup_foldl_bump (t : gmap string nat) l k :
  foldl Js.bump t l !! k =
  match occ k l with
  | 0 => t !! k
  | S _ => Some (default 0 (t !! k) + occ k l)
  end.
Proof.
  revert t. induction l as [|a l IH]; intros t; [done|].
  cbn [foldl]. rewrite IH, occ_cons. unfold Js.bump.
  destruct (decide (a = k)) as [->|Hne].
  - rewrite lookup_insert_eq. cbn [default].
    destruct (occ k l) as [|n]; cbn [Nat.add]; f_equal; unfold id; lia.
  - rewrite lookup_insert_ne by done. reflexivity.
Qed.

Lemma lookup_tally l k :
  foldl Js.bump ∅ l !! k = match occ k l with 0 => None | S n => Some (S n) end.
Proof. rewrite lookup_foldl_bump, lookup_empty. by destruct (occ k l). Qed.

Lemma elem_of_keys (t : gmap string nat) k : k ∈ Js.keys t ↔ is_Some (t !! k).
Proof.
  unfold Js.keys. rewrite list_elem_of_fmap. split.
  - intros ([k' n] & -> & H%elem_of_map_to_list). by exists n.
  - intros [n Hn]. exists (k, n). split; [done|]. by apply elem_of_map_to_list.
Qed.

Lemma elem_of_keys_tally l k : k ∈ Js.keys (foldl Js.bump ∅ l) ↔ k ∈ l.
Proof.
  rewrite elem_of_keys, lookup_tally, <- occ_pos.
  destruct (occ k l); split; try lia; [by intros [? ?] | by eexists].
Qed.

Lemma NoDup_keys (t : gmap string nat) : NoDup (Js.keys t).
Proof. apply NoDup_fst_map_to_list. Qed.

Lemma foldl_sum (F : nat → string → nat) f L (n : nat) :
  (∀ acc k, F acc k = acc + f k) →
  foldl F n L = n + sum_list_with f L.
Proof.
  intros HF. revert n. induction L as [|k L IH]; intros n; simpl; [lia|].
  rewrite IH, HF. lia.
Qed.

Lemma sum_add f g L :
  sum_list_with (λ k, f k + g k) L = sum_list_with f L + sum_list_with g L.
Proof. induction L; simpl; lia. Qed.

Lemma sum_le f g L :
  (∀ k, k ∈ L → f k ≤ g k) → sum_list_with f L ≤ sum_list_with g L.
Proof.
  induction L as [|a L IH]; intros H; simpl; [lia|].
  assert (f a ≤ g a) by (apply H; left).
  assert (sum_list_with f L ≤ sum_list_with g L)
    by (apply IH; intros; apply H; by right).
  lia.
Qed.

Lemma sum_ext f g L :
  (∀ k, k ∈ L → f k = g k) → sum_list_with f L = sum_list_with g L.
Proof.
  induction L as [|a L IH]; intros H; simpl; [done|].
  rewrite (H a) by left. rewrite IH; [done|]. intros; apply H; by right.
Qed.

Lemma sum_eq_pointwise f g L :
  (∀ k, k ∈ L → f k ≤ g k) →
  sum_list_with f L = sum_list_with g L →
  ∀ k, k ∈ L → f k = g k.
Proof.
  induction L as [|a L IH]; intros Hle Hsum k Hk; [by apply elem_of_nil in Hk|].
  simpl in Hsum.
  assert (f a ≤ g a) by (apply Hle; left).
  assert (sum_list_with f L ≤ sum_list_with g L)
    by (apply sum_le; intros; apply Hle; by right).
  apply elem_of_cons in Hk as [->|Hk]; [lia|].
  apply IH; [intros; apply Hle; by right | lia | done].
Qed.

Lemma sum_filter_nonzero f L :
  sum_list_with f (filter (λ k, f k ≠ 0) L) = sum_list_with f L.
Proof.
  induction L as [|a L IH]; [done|].
  rewrite filter_cons. case_decide; simpl; lia.
Qed.

Lemma sum_indicator a L :
  NoDup L → a ∈ L →
  sum_list_with (λ k, if decide (a = k) then 1 else 0) L = 1.
Proof.
  induction 1 as [|x L Hx HL IH]; intros Ha; [by apply elem_of_nil in Ha|].
  simpl. apply elem_of_cons in Ha as [->|Ha].
  - rewrite decide_True by done.
    rewrite (sum_ext _ (λ _, 0)).
    + clear. induction L; simpl; lia.
    + intros k Hk. apply decide_False. by intros ->.
  - rewrite decide_False by (by intros ->). rewrite IH; [lia | done].
Qed.

(** Summing the occurrence counts over a duplicate-free list that covers
    the keys counts every position once. *)
Lemma sum_occ L l :
  NoDup L → (∀ k, k ∈ l → k ∈ L) →
  sum_list_with (λ k, occ k l) L = length l.
Proof.
  intros HL. induction l as [|a l IH]; intros Hcover.
  - clear. induction L as [|x L IH]; [done|].
    cbn [sum_list_with]. rewrite IH, occ_nil. done.
  - rewrite (sum_ext _ (λ k, (if decide (a = k) then 1 else 0) + occ k l))
      by (intros; apply occ_cons).
    rewrite sum_add, sum_indicator, IH; [done | | done |].
    + intros; apply Hcover; by right.
    + apply Hcover; by left.
Qed.

Lemma occ_le_submseteq gs hs : (∀ k, occ k gs ≤ occ k hs) → gs ⊆+ hs.
Proof.
  revert hs. induction gs as [|a gs IH]; intros hs H.
  - apply submseteq_nil_l.
  - assert (a ∈ hs) as [hs' Hhs]%elem_of_Permutation.
    { apply occ_pos. specialize (H a). rewrite occ_cons, decide_True in H by done. lia. }
    rewrite Hhs. apply submseteq_skip, IH. intros k.
    specialize (H k). rewrite (occ_Permutation _ _ _ Hhs), !occ_cons in H. lia.
Qed.

Lemma overlap_le hs gs L :
  NoDup L → (∀ k, k ∈ gs → k ∈ L) → overlap hs gs L ≤ length gs.
Proof.
  intros HL Hc. rewrite <- (sum_occ L gs HL Hc).
  apply sum_le. intros; lia.
Qed.

Lemma overlap_comm hs gs Lh Lg :
  NoDup Lh → NoDup Lg →
  (∀ k, k ∈ Lh ↔ k ∈ hs) → (∀ k, k ∈ Lg ↔ k ∈ gs) →
  overlap hs gs Lg = overlap gs hs Lh.
Proof.
  intros HLh HLg Hh Hg. unfold overlap.
  rewrite (sum_ext (λ k, Nat.min (occ k gs) (occ k hs))
                   (λ k, Nat.min (occ k hs) (occ k gs)) Lh)
    by (intros; apply Nat.min_comm).
  rewrite <- (sum_filter_nonzero _ Lg), <- (sum_filter_nonzero _ Lh).
  apply sum_list_with_Permutation_proper.
  apply NoDup_Permutation; [by apply NoDup_filter..|].
  intros k. rewrite !list_elem_of_filter, Hh, Hg, <- !occ_pos. lia.
Qed.

Lemma overlap_full hs gs L :
  NoDup L → (∀ k, k ∈ L ↔ k ∈ gs) → length hs = length gs →
  overlap hs gs L = length gs ↔ hs ≡ₚ gs.
Proof.
  intros HL Hc Hlen. split.
  - intros Hsum. symmetry. apply submseteq_length_Permutation; [|lia].
    apply occ_le_submseteq. intros k.
    destruct (decide (k ∈ L)) as [Hk|Hk].
    + rewrite <- (sum_occ L gs HL) in Hsum by (intros; by apply Hc).
      pose proof (sum_eq_pointwise _ _ L
                    (λ k _, Nat.le_min_r (occ k hs) (occ k gs)) Hsum k Hk).
      simpl in *. lia.
    + rewrite Hc, <- occ_pos in Hk. lia.
  - intros Hp. unfold overlap.
    rewrite (sum_ext _ (λ k, occ k gs)).
    + apply sum_occ; [done | intros; by apply Hc].
    + intros k _. rewrite (occ_Permutation k _ _ Hp). lia.
Qed.
End Counting.

Lemma length_toLowerCase s : String.length (Js.toLowerCase s) = String.length s.
Proof. apply length_mapString. Qed.

Lemma split_chars s : Js.split s = (λ c, String c EmptyString) <$> chars s.
Proof. induction s as [|a s IH]; simpl; [done|]. by rewrite IH. Qed.

Lemma length_split s : length (Js.split s) = String.length s.
Proof. by rewrite split_chars, length_fmap, length_chars. Qed.

Lemma first_char_split (l : list ascii) :
  (λ s, match s with String c _ => c | EmptyString => "000"%char end)
    <$> ((λ c, String c EmptyString) <$> l) = l.
Proof. induction l as [|c l IH]; [done|]. rewrite !fmap_cons. by rewrite IH. Qed.

Lemma split_Permutation s1 s2 :
  Js.split s1 ≡ₚ Js.split s2 ↔ chars s1 ≡ₚ chars s2.
Proof.
  rewrite !split_chars. split.
  - intros H.
    apply (fmap_Permutation
             (λ s, match s with String c _ => c | EmptyString => "000"%char end))
      in H.
    by rewrite !first_char_split in H.
  - apply fmap_Permutation.
Qed.

Lemma calculateCommonLetters_overlap h g :
  calculateCommonLetters h g =
  overlap (Js.split (Js.toLowerCase h)) (Js.split (Js.toLowerCase g))
    (Js.keys (foldl Js.bump ∅ (Js.split (Js.toLowerCase g)))).
Proof.
  unfold calculateCommonLetters, overlap.
  rewrite (foldl_sum _
             (λ k, Nat.min (occ k (Js.split (Js.toLowerCase h)))
                           (occ k (Js.split (Js.toLowerCase g))))); [done|].
  intros acc k. rewrite !lookup_tally.
  destruct (occ k (Js.split (Js.toLowerCase h))),
           (occ k (Js.split (Js.toLowerCase g))); simpl; lia.
Qed.

(** The score never exceeds the length of the guess. *)
Lemma calculateCommonLetters_le_length h g :
  calculateCommonLetters h g ≤ String.length g.
Proof.
  rewrite calculateCommonLetters_overlap.
  etrans; [apply overlap_le|].
  - apply NoDup_keys.
  - intros k. by rewrite elem_of_keys_tally.
  - by rewrite length_split, length_toLowerCase.
Qed.

Lemma calculateCommonLetters_comm h g :
  calculateCommonLetters h g = calculateCommonLetters g h.
Proof.
  rewrite !calculateCommonLetters_overlap.
  apply overlap_comm; auto using NoDup_keys, elem_of_keys_tally.
Qed.

Lemma calculateCommonLetters_full h g :
  String.length h = String.length g →
  calculateCommonLetters h g = String.length g ↔ anagrams h g.
Proof.
  intros Hlen. unfold anagrams, letters.
  rewrite <- split_Permutation, calculateCommonLetters_overlap.
  rewrite <- (length_toLowerCase g), <- length_split.
  apply overlap_full; auto using NoDup_keys, elem_of_keys_tally.
  by rewrite !length_split, !length_toLowerCase.
Qed.

(** C5. For a secret and a guess of five characters each, the common-letter
    count is at most 5, does not change when the two words are swapped, and
    is 5 exactly when the words are anagrams: same letters with the same
    multiplicities, case folded as the function folds it. *)
Theorem calculateCommonLetters_five (secret guess : string) :
  String.length secret = 5 → String.length guess = 5 →
  calculateCommonLetters secret guess ≤ 5 ∧
  calculateCommonLetters secret guess = calculateCommonLetters guess secret ∧
  (calculateCommonLetters secret guess = 5 ↔ anagrams secret guess).
Proof.
  intros Hs Hg. split_and!.
  - rewrite <- Hg. apply calculateCommonLetters_le_length.
  - apply calculateCommonLetters_comm.
  - rewrite <- Hg at 1. apply calculateCommonLetters_full. congruence.
Qed.

Lemma calculateCommonLetters_five_witness :
  calculateCommonLetters "HOUSE" "SHOUE" ≤ 5 ∧
  calculateCommonLetters "HOUSE" "SHOUE" = calculateCommonLetters "SHOUE" "HOUSE" ∧
  (calculateCommonLetters "HOUSE" "SHOUE" = 5 ↔ anagrams "HOUSE" "SHOUE").
Proof.
  apply (calculateCommonLetters_five "HOUSE" "SHOUE"); reflexivity.
Defined.

Lemma upper_lower_capital c : isCapital c → Js.upperChar (Js.lowerChar c) = c.
Proof.
  unfold isCapital.
  destruct c as [[] [] [] [] [] [] [] []]; vm_compute; intros [H1 H2];
    first [reflexivity | exfalso; lia].
Qed.

Lemma upper_lower_capitals (l : list ascii) :
  Forall isCapital l → Js.upperChar <$> (Js.lowerChar <$> l) = l.
Proof.
  induction 1 as [|c l Hc _ IH]; [done|].
  rewrite !fmap_cons, IH, upper_lower_capital; done.
Qed.

(** For words in capitals, as the session manager passes them, the letters
    need no folding: anagrams are permutations of the words themselves. *)
Lemma anagrams_capitals w1 w2 :
  Forall isCapital (chars w1) → Forall isCapital (chars w2) →
  anagrams w1 w2 ↔ chars w1 ≡ₚ chars w2.
Proof.
  intros H1 H2. unfold anagrams, letters, Js.toLowerCase.
  rewrite !chars_mapString. split.
  - intros H. apply (fmap_Permutation Js.upperChar) in H.
    by rewrite !upper_lower_capitals in H.
  - apply fmap_Permutation.
Qed.

(** Anagrams that are not equal do reach 5. *)
Example calculateCommonLetters_anagram :
  calculateCommonLetters "HOUSE" "SHOUE" = 5 ∧ "HOUSE" ≠ "SHOUE".
Proof. split; [vm_compute; reflexivity | discriminate]. Qed.

Example calculateCommonLetters_house_mouse :
  calculateCommonLetters "HOUSE" "MOUSE" = 4.
Proof. vm_compute. reflexivity. Qed.

(** A repeated letter of the guess counts up to its multiplicity in the
    secret only. *)
Example calculateCommonLetters_house_elite :
  calculateCommonLetters "HOUSE" "ELITE" = 1.
Proof. vm_compute. reflexivity. Qed.

Example calculateCommonLetters_error_arrow :
  calculateCommonLetters "ERROR" "ARROW" = 3.
Proof. vm_compute. reflexivity. Qed.

Example generateGameId_half : generateGameId [18] = "I".
Proof. vm_compute. reflexivity. Qed.

Example validateWord_mixed_case : validateWord "HoUsE" = true.
Proof. vm_compute. reflexivity. Qed.

(** ** Snapshots sent by the host *)

Lemma createGame_hosting :
  createGame [1; 2; 3; 35; 10; 11] 1000 1000 1001 "house" " Alice " (idle "peer1")
  = Returned "123ZAB"
      (Env.mk hosting
         (BroadcastManager.mk (Some (Channel.mk "jotto-game-123ZAB" false))
            true (Some "123ZAB") "peer1")
         (<["jotto-player-name-123ZAB" := "Alice"]>
            (<["jotto-host-123ZAB" := stringifyHostInfo "peer1" "123ZAB" 1001]> ∅))
         [P2PMessage.mk "jotto-game-123ZAB" None
            (GameStateMsg
               (GameState.mk "123ZAB" "HOUSE" [alice] Waiting (Some 1000%Z)))
            "peer1"]).
Proof. reflexivity. Qed.

(** C1. On the host the snapshot handed to the transport is the retained
    game state itself: its [hostWord] field is the real secret, not the
    placeholder. *)
Theorem broadcastGameState_host_unmasked (gs : GameState.t) (me : option string) :
  broadcastGameState (Manager.mk (Some gs) true me) = [Broadcast (GameStateMsg gs)].
Proof. by destruct gs. Qed.

(** The placeholder is sent only by a process that is not the host. *)
Lemma broadcastGameState_non_host (gs : GameState.t) (me : option string) :
  broadcastGameState (Manager.mk (Some gs) false me)
  = [Broadcast
       (GameStateMsg
          (GameState.mk (GameState.gameId gs) "****" (GameState.players gs)
             (GameState.status gs) (GameState.startTime gs)))].
Proof. reflexivity. Qed.

Example broadcastGameState_hosting :
  broadcastGameState hosting
  = [Broadcast
       (GameStateMsg (GameState.mk "123ZAB" "HOUSE" [alice] Waiting (Some 1000%Z)))].
Proof. reflexivity. Qed.

Local Ltac member H :=
  simpl in H;
  repeat (apply elem_of_cons in H as [H|H];
          [first [discriminate H | injection H as ->; reflexivity]|]);
  by apply elem_of_nil in H.

(** Every snapshot a host handler hands to the transport carries the
    secret of the retained state. *)
Lemma host_snapshots_unmasked m gs ev snapshot :
  Manager.isHost m = true →
  Manager.gameState m = Some gs →
  Broadcast (GameStateMsg snapshot) ∈ callsOf m ev →
  GameState.hostWord snapshot = GameState.hostWord gs.
Proof.
  intros Hh Hg.
  destruct ev as [player|now player|now stamp playerId guess|playerId]; simpl.
  - unfold handleJoinRequest. rewrite Hh, Hg.
    destruct (list_find _ _); unfold broadcastGameState; simpl; rewrite ?Hh;
      intros Hin; member Hin.
  - unfold handlePlayerJoined. rewrite Hh, Hg.
    destruct (list_find _ _); unfold broadcastGameState; simpl; rewrite ?Hh;
      intros Hin; member Hin.
  - unfold handlePlayerGuess. rewrite Hh, Hg.
    destruct (list_find _ _) as [[i p]|]; [|intros Hin; member Hin].
    case_bool_decide; [intros Hin; member Hin|].
    destruct (validateWord _); [|intros Hin; member Hin].
    unfold broadcastGameState. cbn -[allActiveFinished]. rewrite ?Hh.
    destruct (isWordCorrect _ _); intros Hin; member Hin.
  - unfold handlePlayerLeft. rewrite Hg.
    destruct (list_find _ _) as [[i p]|]; [|intros Hin; member Hin].
    unfold broadcastGameState. simpl. rewrite ?Hh. simpl. rewrite ?Hh.
    intros Hin; member Hin.
Qed.

(** ** Completion of the session *)

Lemma length_filter_all {A} (P : A → Prop) `{∀ x, Decision (P x)} (l : list A) :
  length (filter P l) = length l ↔ Forall P l.
Proof.
  induction l as [|a l IH]; [by split; [constructor|]|].
  rewrite filter_cons, Forall_cons. pose proof (length_filter P l).
  case_decide; simpl; [rewrite <- IH; intuition lia | intuition lia].
Qed.

Lemma allActiveFinished_spec players :
  allActiveFinished players = true ↔ everyActiveFinished players.
Proof.
  unfold allActiveFinished, everyActiveFinished.
  rewrite bool_decide_eq_true, length_filter_all, Forall_forall.
  split.
  - intros H p Hp Hd. apply H, list_elem_of_filter. by split.
  - intros H p [Hd Hp]%list_elem_of_filter. by apply H.
Qed.

Lemma handlePlayerLeft_status m playerId :
  statusOf (handlePlayerLeft m playerId).1 = statusOf m.
Proof.
  unfold handlePlayerLeft, statusOf. destruct (Manager.gameState m) as [gs|] eqn:E.
  - destruct (list_find _ _) as [[i p]|]; simpl; [done | by rewrite E].
  - simpl. by rewrite E.
Qed.

(** C2. With Alice finished and Bob still playing in a running session,
    marking Bob disconnected leaves every player that is not disconnected
    finished, and yet the session status stays [Playing]:
    [handlePlayerLeft] never re-runs the completion check. *)
Theorem handlePlayerLeft_last_active_leaves :
  let m :=
    Manager.mk
      (Some (GameState.mk "123ZAB" "HOUSE"
               [Player.mk "peer1" "Alice" [Guess.mk "HOUSE" 5 5000] 4 PFinished 1000;
                bob]
               Playing (Some 1000%Z)))
      true (Some "peer1") in
  let m' := (handlePlayerLeft m "peer2").1 in
  Player.status <$> playersOf m' = [PFinished; PDisconnected] ∧
  allActiveFinished (playersOf m') = true ∧
  statusOf m' = Some Playing.
Proof. vm_compute. done. Qed.

(** The sibling path: when a guess is right, [handlePlayerGuess] finishes
    the session exactly if every player that is not disconnected has
    finished, disconnected players being left out of the check. *)
Lemma handlePlayerGuess_completion now stamp m gs playerId guess i player :
  Manager.isHost m = true →
  Manager.gameState m = Some gs →
  list_find (λ p, Player.id p = playerId) (GameState.players gs) = Some (i, player) →
  Player.status player ≠ PFinished →
  validateWord (Guess.word guess) = true →
  isWordCorrect (GameState.hostWord gs) (Guess.word guess) = true →
  let m' := (handlePlayerGuess now stamp m playerId guess).1 in
  (everyActiveFinished (playersOf m') → statusOf m' = Some Finished) ∧
  (¬ everyActiveFinished (playersOf m') → statusOf m' = Some (GameState.status gs)).
Proof.
  intros Hh Hg Hf Hs Hv Hc. unfold handlePlayerGuess.
  rewrite Hh, Hg, Hf, bool_decide_eq_false_2, Hv, Hc by done.
  cbn -[allActiveFinished]. rewrite <- allActiveFinished_spec.
  destruct (allActiveFinished _); split; intros; done.
Qed.

(** ** Start of the session *)

Lemma handleJoinRequest_status_start m player :
  statusOf (handleJoinRequest m player).1 = statusOf m ∧
  startOf (handleJoinRequest m player).1 = startOf m.
Proof.
  unfold handleJoinRequest, statusOf, startOf.
  destruct (Manager.isHost m), (Manager.gameState m) as [gs|] eqn:E; simpl;
    rewrite ?E; try done.
  destruct (list_find _ _); simpl; by rewrite ?E.
Qed.

(** C3. Starting from the freshly created game, admitting Bob through
    [handleJoinRequest], the handler bound to join requests, adds him as
    second player and leaves the session [Waiting] with the start stamp of
    the creation: the transition is not evaluated on this path. *)
Theorem handleJoinRequest_second_player_waits :
  let m' := (handleJoinRequest hosting bob).1 in
  playersOf m' = [alice; bob] ∧
  statusOf m' = Some Waiting ∧
  startOf m' = Some 1000%Z.
Proof. vm_compute. done. Qed.

(** The sibling handler does start the session on the second player ... *)
Lemma handlePlayerJoined_second_player now m gs first player :
  Manager.isHost m = true →
  Manager.gameState m = Some gs →
  GameState.status gs = Waiting →
  GameState.players gs = [first] →
  Player.name first ≠ Player.name player →
  let m' := (handlePlayerJoined now m player).1 in
  playersOf m' = [first; player] ∧
  statusOf m' = Some Playing ∧
  startOf m' = Some now.
Proof.
  intros Hh Hg Hs Hp Hn. unfold handlePlayerJoined.
  rewrite Hh, Hg, Hp. cbn [list_find]. rewrite decide_False by done.
  simpl. rewrite Hs. done.
Qed.

(** ... and never again once the session has left [Waiting]. *)
Lemma handlePlayerJoined_later_player now m player :
  statusOf m ≠ Some Waiting →
  statusOf (handlePlayerJoined now m player).1 = statusOf m ∧
  startOf (handlePlayerJoined now m player).1 = startOf m.
Proof.
  unfold handlePlayerJoined, statusOf, startOf.
  destruct (Manager.isHost m), (Manager.gameState m) as [gs|] eqn:E; simpl;
    rewrite ?E; try done.
  intros Hw. destruct (list_find _ _); simpl; rewrite ?E; [done|].
  rewrite bool_decide_eq_false_2 by congruence.
  by rewrite andb_false_r.
Qed.

(** After an admission through [handleJoinRequest] the session is still
    waiting with two players; a later admission through the sibling then
    starts it on the third player. *)
Example handlePlayerJoined_third_player_starts :
  let carol := Player.mk "peer3" "Carol" [] 0 PPlaying 3000 in
  let m2 := (handleJoinRequest hosting bob).1 in
  let m3 := (handlePlayerJoined 3001 m2 carol).1 in
  statusOf m2 = Some Waiting ∧
  length (playersOf m3) = 3 ∧ statusOf m3 = Some Playing ∧ startOf m3 = Some 3001%Z.
Proof. vm_compute. done. Qed.

(** ** Join admission *)

Lemma list_find_name_Some (players : list Player.t) (name : string) :
  (∃ p, p ∈ players ∧ Player.name p = name) →
  is_Some (list_find (λ p, Player.name p = name) players).
Proof. intros (p & Hp & Hn). by eapply list_find_elem_of. Qed.

Lemma list_find_name_None (players : list Player.t) (name : string) :
  list_find (λ p, Player.name p = name) players = None →
  name ∉ Player.name <$> players.
Proof.
  intros H%list_find_None (p & -> & Hp)%list_elem_of_fmap.
  by eapply (proj1 (Forall_forall _ _) H).
Qed.

Lemma NoDup_names_snoc (players : list Player.t) (player : Player.t) :
  NoDup (Player.name <$> players) →
  Player.name player ∉ Player.name <$> players →
  NoDup (Player.name <$> (players ++ [player])%list).
Proof.
  intros Hn Hfresh. rewrite fmap_app. apply NoDup_app. split_and!; [done| |].
  - intros x Hx Hx'%list_elem_of_singleton. by subst.
  - apply NoDup_singleton.
Qed.

(** C4, as the code has it. A join request whose player name equals the
    name of a player already present is rejected, by either admission
    handler: an error goes to the requester and nothing else changes.
    Names therefore stay pairwise distinct after every admission. *)
Theorem join_admission_unique_names (now : Z) (m : Manager.t) (gs : GameState.t)
    (player : Player.t) :
  Manager.isHost m = true →
  Manager.gameState m = Some gs →
  ((∃ p, p ∈ GameState.players gs ∧ Player.name p = Player.name player) →
     handleJoinRequest m player
     = (m, [Send (Player.id player)
              (ErrorMsg "Player name already taken in this game.")]) ∧
     handlePlayerJoined now m player
     = (m, [Send (Player.id player)
              (ErrorMsg "Player name already taken in this game.")])) ∧
  (NoDup (Player.name <$> GameState.players gs) →
     NoDup (Player.name <$> playersOf (handleJoinRequest m player).1) ∧
     NoDup (Player.name <$> playersOf (handlePlayerJoined now m player).1)).
Proof.
  intros Hh Hg. unfold handleJoinRequest, handlePlayerJoined, playersOf.
  rewrite Hh, Hg. split.
  - intros [[i p] ->]%list_find_name_Some. done.
  - intros Hn.
    destruct (list_find _ _) as [[i p]|] eqn:Hf; simpl; rewrite ?Hg; simpl.
    + done.
    + apply list_find_name_None in Hf. split; by apply NoDup_names_snoc.
Qed.

Lemma join_admission_unique_names_witness :
  (handleJoinRequest hosting (Player.mk "peer3" "Alice" [] 0 PPlaying 3000)
   = (hosting, [Send "peer3" (ErrorMsg "Player name already taken in this game.")])) ∧
  NoDup (Player.name <$> playersOf (handleJoinRequest hosting bob).1).
Proof.
  pose proof (join_admission_unique_names 3000 hosting
                (GameState.mk "123ZAB" "HOUSE" [alice] Waiting (Some 1000%Z))
                (Player.mk "peer3" "Alice" [] 0 PPlaying 3000)
                eq_refl eq_refl) as [H1 _].
  pose proof (join_admission_unique_names 3000 hosting
                (GameState.mk "123ZAB" "HOUSE" [alice] Waiting (Some 1000%Z))
                bob eq_refl eq_refl) as [_ H2].
  split.
  - apply H1. exists alice. split; [apply list_elem_of_here | reflexivity].
  - apply H2. apply NoDup_singleton.
Defined.

(** C4, as stated, fails: a second request carrying the id of a player
    already present, under another name, is admitted and the id then
    occurs twice. *)
Lemma handleJoinRequest_same_id_admitted :
  let m' := (handleJoinRequest hosting (Player.mk "peer1" "Bob" [] 0 PPlaying 2000)).1 in
  Player.id <$> playersOf m' = ["peer1"; "peer1"] ∧
  ¬ NoDup (Player.id <$> playersOf m').
Proof.
  split; [reflexivity|].
  intros H. apply NoDup_cons in H as [H _]. apply H. vm_compute. left.
Qed.

(** ** Guesses from finished or unknown players *)

(** C6. A guess for a player id that is not in the players collection, or
    whose record is already finished, changes nothing: the manager state,
    and with it that player's guess list and status, is returned as it
    was, and no call goes to the transport. *)
Theorem handlePlayerGuess_finished_or_unknown (now stamp : Z) (m : Manager.t)
    (gs : GameState.t) (playerId : string) (guess : Guess.t) :
  Manager.gameState m = Some gs →
  (list_find (λ p, Player.id p = playerId) (GameState.players gs) = None ∨
   ∃ i player,
     list_find (λ p, Player.id p = playerId) (GameState.players gs) = Some (i, player) ∧
     Player.status player = PFinished) →
  handlePlayerGuess now stamp m playerId guess = (m, []).
Proof.
  intros Hg H. unfold handlePlayerGuess. rewrite Hg.
  destruct (Manager.isHost m); [|done].
  destruct H as [->|(i & player & -> & Hs)]; [done|].
  by rewrite bool_decide_eq_true_2.
Qed.

Lemma handlePlayerGuess_finished_or_unknown_witness :
  let m :=
    Manager.mk
      (Some (GameState.mk "123ZAB" "HOUSE"
               [Player.mk "peer1" "Alice" [Guess.mk "HOUSE" 5 5000] 4 PFinished 1000;
                bob]
               Playing (Some 1000%Z)))
      true (Some "peer1") in
  handlePlayerGuess 9000 9001 m "peer1" (Guess.mk "MOUSE" 0 9000) = (m, []) ∧
  handlePlayerGuess 9000 9001 m "peer7" (Guess.mk "MOUSE" 0 9000) = (m, []).
Proof.
  split.
  - eapply handlePlayerGuess_finished_or_unknown; [reflexivity|].
    right. eexists 0, _. split; reflexivity.
  - eapply handlePlayerGuess_finished_or_unknown; [reflexivity|].
    left. reflexivity.
Defined.

(** ** Elapsed time recorded for a player *)

Lemma elapsedSeconds_mono s t t' :
  (t ≤ t')%Z → (elapsedSeconds s t ≤ elapsedSeconds s t')%Z.
Proof.
  intros Ht. unfold elapsedSeconds. destruct s as [s|]; [|done].
  destruct (s =? 0)%Z; [done|]. apply Z.div_le_mono; lia.
Qed.

Lemma elapsedSeconds_nonneg s t :
  from_option (λ s, (s ≤ t)%Z) True s → (0 ≤ elapsedSeconds s t)%Z.
Proof.
  unfold elapsedSeconds. destruct s as [s|]; simpl; [|done].
  intros Hs. destruct (s =? 0)%Z; [done|]. apply Z.div_pos; lia.
Qed.

Lemma nondecreasing_app c l1 l2 :
  nondecreasing c (l1 ++ l2)%list ↔
  nondecreasing c l1 ∧ nondecreasing (clockAfter c l1) l2.
Proof.
  revert c. induction l1 as [|t l1 IH]; intros c; simpl; [tauto|].
  rewrite IH. tauto.
Qed.

Lemma clockAfter_le c l : nondecreasing c l → (c ≤ clockAfter c l)%Z.
Proof.
  revert c. induction l as [|t l IH]; intros c; simpl; [lia|].
  intros [Hc Hl]. specialize (IH _ Hl). lia.
Qed.

Lemma clockAfter_app c l1 l2 :
  clockAfter c (l1 ++ l2)%list = clockAfter (clockAfter c l1) l2.
Proof. revert c. induction l1; intros c; simpl; auto. Qed.

Lemma timeInv_later c c' m : (c ≤ c')%Z → timeInv c m → timeInv c' m.
Proof.
  intros Hc [Hs Hp]. split.
  - destruct (startOf m); simpl in *; [lia | done].
  - eapply Forall_impl; [exact Hp|]. intros p Hle. simpl in Hle.
    pose proof (elapsedSeconds_mono (startOf m) c c' Hc). lia.
Qed.

(** What a step may do to the players: nothing, append a record, or
    replace the record at one index. *)
Lemma timeInv_append c m m' player :
  startOf m' = startOf m →
  playersOf m' = (playersOf m ++ [player])%list →
  Player.timeUsed player = 0%Z →
  timeInv c m →
  timeInv c m' ∧
  ∀ i p, playersOf m !! i = Some p →
         ∃ p', playersOf m' !! i = Some p' ∧ (Player.timeUsed p ≤ Player.timeUsed p')%Z.
Proof.
  intros Hs Hp H0 [Hi1 Hi2]. split; [split|].
  - by rewrite Hs.
  - rewrite Hs, Hp. apply Forall_app. split; [done|].
    apply Forall_singleton. rewrite H0. by apply elapsedSeconds_nonneg.
  - intros i p Hip. exists p. split; [|lia].
    rewrite Hp. by apply lookup_app_l_Some.
Qed.

Lemma timeInv_replace c c' m m' i old new :
  startOf m' = startOf m →
  playersOf m !! i = Some old →
  playersOf m' = <[i := new]> (playersOf m) →
  (c ≤ c')%Z →
  (Player.timeUsed old ≤ Player.timeUsed new)%Z →
  (Player.timeUsed new ≤ elapsedSeconds (startOf m) c')%Z →
  timeInv c m →
  timeInv c' m' ∧
  ∀ j p, playersOf m !! j = Some p →
         ∃ p', playersOf m' !! j = Some p' ∧ (Player.timeUsed p ≤ Player.timeUsed p')%Z.
Proof.
  intros Hs Hold Hp Hc Hle Hnew Hinv.
  apply (timeInv_later c c' m Hc) in Hinv as [Hi1 Hi2]. split; [split|].
  - by rewrite Hs.
  - rewrite Hs, Hp. by apply Forall_insert.
  - intros j p Hjp. rewrite Hp. destruct (decide (i = j)) as [->|Hne].
    + exists new. rewrite list_lookup_insert_eq by (by eapply lookup_lt_Some).
      split; [done|]. congruence.
    + exists p. rewrite list_lookup_insert_ne by done. split; [done | lia].
Qed.

Lemma timeInv_same c c' m :
  (c ≤ c')%Z → timeInv c m →
  timeInv c' m ∧
  ∀ i p, playersOf m !! i = Some p →
         ∃ p', playersOf m !! i = Some p' ∧ (Player.timeUsed p ≤ Player.timeUsed p')%Z.
Proof.
  intros Hc Hinv. split; [by eapply timeInv_later|].
  intros i p Hp. exists p. split; [done | lia].
Qed.

Local Ltac unchanged c := apply (timeInv_same c); [lia | assumption].

Lemma step_time c m ev :
  timeInv c m →
  nondecreasing c (readings ev) →
  freshJoin ev →
  startOf (step m ev) = startOf m →
  timeInv (clockAfter c (readings ev)) (step m ev) ∧
  ∀ i p, playersOf m !! i = Some p →
         ∃ p', playersOf (step m ev) !! i = Some p' ∧
               (Player.timeUsed p ≤ Player.timeUsed p')%Z.
Proof.
  intros Hinv Hclock Hfresh Hstart.
  destruct ev as [player|now player|now stamp playerId guess|playerId];
    simpl in Hclock, Hfresh, Hstart |- *.
  - (* handleJoinRequest *)
    revert Hstart. unfold handleJoinRequest.
    destruct (Manager.isHost m), (Manager.gameState m) as [gs|] eqn:Hg;
      try (intros _; unchanged c).
    destruct (list_find _ _); [intros _; unchanged c|].
    intros Hstart. apply (timeInv_append c m _ player); try done.
    unfold playersOf. by rewrite Hg.
  - (* handlePlayerJoined *)
    destruct Hclock as [Hc _].
    revert Hstart. unfold handlePlayerJoined.
    destruct (Manager.isHost m), (Manager.gameState m) as [gs|] eqn:Hg;
      try (intros _; unchanged c).
    destruct (list_find _ _); [intros _; unchanged c|].
    intros Hstart.
    apply (timeInv_append now m _ player); try done.
    + unfold playersOf. by rewrite Hg.
    + by eapply timeInv_later.
  - (* handlePlayerGuess *)
    destruct Hclock as (Hc & Hs & _).
    revert Hstart. unfold handlePlayerGuess.
    destruct (Manager.isHost m), (Manager.gameState m) as [gs|] eqn:Hg;
      try (intros _; unchanged c).
    destruct (list_find _ _) as [[i player]|] eqn:Hf;
      [|intros _; unchanged c].
    case_bool_decide; [intros _; unchanged c|].
    destruct (validateWord _); simpl;
      [|intros _; unchanged c].
    intros _. apply list_find_Some in Hf as (Hi & _ & _).
    assert (startOf m = GameState.startTime gs) as Hsm
      by (unfold startOf; by rewrite Hg).
    assert (playersOf m = GameState.players gs) as Hpm
      by (unfold playersOf; by rewrite Hg).
    assert (Player.timeUsed player ≤ elapsedSeconds (startOf m) c)%Z as Hle.
    { destruct Hinv as [_ Hi2].
      apply (proj1 (Forall_forall _ _) Hi2).
      rewrite Hpm. by eapply list_elem_of_lookup_2. }
    pose proof (elapsedSeconds_mono (startOf m) c now Hc) as Hm1.
    pose proof (elapsedSeconds_mono (startOf m) now stamp Hs) as Hm2.
    eapply (timeInv_replace c stamp m _ i player).
    + unfold startOf. simpl. by rewrite Hg.
    + by rewrite Hpm.
    + unfold playersOf at 1. simpl. by rewrite Hpm.
    + lia.
    + simpl. rewrite <- Hsm. lia.
    + simpl. by rewrite <- Hsm.
    + done.
  - (* handlePlayerLeft *)
    revert Hstart. unfold handlePlayerLeft.
    destruct (Manager.gameState m) as [gs|] eqn:Hg;
      [|intros _; unchanged c].
    destruct (list_find _ _) as [[i player]|] eqn:Hf;
      [|intros _; unchanged c].
    intros _. apply list_find_Some in Hf as (Hi & _ & _).
    assert (playersOf m = GameState.players gs) as Hpm
      by (unfold playersOf; by rewrite Hg).
    assert (Player.timeUsed player ≤ elapsedSeconds (startOf m) c)%Z as Hle.
    { destruct Hinv as [_ Hi2].
      apply (proj1 (Forall_forall _ _) Hi2).
      rewrite Hpm. by eapply list_elem_of_lookup_2. }
    eapply (timeInv_replace c c m _ i player).
    + unfold startOf. simpl. by rewrite Hg.
    + by rewrite Hpm.
    + unfold playersOf at 1. simpl. by rewrite Hpm.
    + lia.
    + simpl. lia.
    + done.
    + done.
Qed.

Lemma run_time c m evs :
  timeInv c m →
  nondecreasing c (evs ≫= readings) →
  Forall freshJoin evs →
  Forall (λ m', startOf m' = startOf m) (states m evs) →
  timeInv (clockAfter c (evs ≫= readings)) (run m evs) ∧
  startOf (run m evs) = startOf m ∧
  ∀ i p, playersOf m !! i = Some p →
         ∃ p', playersOf (run m evs) !! i = Some p' ∧
               (Player.timeUsed p ≤ Player.timeUsed p')%Z.
Proof.
  revert c m. induction evs as [|ev evs IH]; intros c m Hinv Hclock Hfresh Hstable.
  - split_and!; [done..|]. intros i p Hp. exists p. split; [done | lia].
  - rewrite bind_cons in Hclock |- *.
    apply nondecreasing_app in Hclock as [Hc1 Hc2].
    apply Forall_cons in Hfresh as [Hf1 Hf2].
    simpl in Hstable. apply Forall_cons in Hstable as [Hs1 Hs2].
    destruct (step_time c m ev Hinv Hc1 Hf1 Hs1) as [Hinv' Hmono].
    destruct (IH _ (step m ev) Hinv' Hc2 Hf2) as (Hinv'' & Hstart & Hmono').
    { eapply Forall_impl; [exact Hs2|]. simpl. congruence. }
    rewrite clockAfter_app. split_and!; [done | simpl; congruence |].
    intros i p Hp. destruct (Hmono i p Hp) as (p' & Hp' & Hle).
    destruct (Hmono' i p' Hp') as (p'' & Hp'' & Hle').
    exists p''. split; [done | lia].
Qed.

Lemma states_app m evs1 evs2 :
  states m (evs1 ++ evs2)%list = (states m evs1 ++ states (run m evs1) evs2)%list.
Proof.
  revert m. induction evs1 as [|ev evs1 IH]; intros m; simpl; [done|].
  by rewrite IH.
Qed.

(** C7, as the code has it. Along any run of host operations whose clock
    readings never decrease, in which joining records start at zero and
    the start stamp is not rewritten, the [timeUsed] of every player only
    grows: the value after any further stretch of the run is at least the
    value before it. *)
Theorem timeUsed_nondecreasing (clock : Z) (m : Manager.t)
    (evs1 evs2 : list Event) (i : nat) (p1 p2 : Player.t) :
  timeInv clock m →
  nondecreasing clock ((evs1 ++ evs2)%list ≫= readings) →
  Forall freshJoin (evs1 ++ evs2)%list →
  Forall (λ m', startOf m' = startOf m) (states m (evs1 ++ evs2)%list) →
  playersOf (run m evs1) !! i = Some p1 →
  playersOf (run m (evs1 ++ evs2)%list) !! i = Some p2 →
  (Player.timeUsed p1 ≤ Player.timeUsed p2)%Z.
Proof.
  intros Hinv Hclock Hfresh Hstable H1 H2.
  rewrite bind_app in Hclock. apply nondecreasing_app in Hclock as [Hc1 Hc2].
  apply Forall_app in Hfresh as [Hf1 Hf2].
  rewrite states_app in Hstable. apply Forall_app in Hstable as [Hs1 Hs2].
  destruct (run_time clock m evs1 Hinv Hc1 Hf1 Hs1) as (Hinv1 & Hstart1 & _).
  destruct (run_time _ (run m evs1) evs2 Hinv1 Hc2 Hf2) as (_ & _ & Hmono).
  { eapply Forall_impl; [exact Hs2|]. simpl. congruence. }
  destruct (Hmono i p1 H1) as (p' & Hp' & Hle).
  unfold run in H2. rewrite foldl_app in H2. fold (run m evs1) in H2.
  fold (run (run m evs1) evs2) in H2. congruence.
Qed.

Lemma timeUsed_nondecreasing_witness :
  let evs1 := [PlayerGuess 3000 3001 "peer1" (Guess.mk "mouse" 0 3000)] in
  let evs2 := [JoinRequest bob;
               PlayerGuess 9000 9001 "peer1" (Guess.mk "horse" 0 9000)] in
  match playersOf (run hosting evs1) !! 0,
        playersOf (run hosting (evs1 ++ evs2)%list) !! 0 with
  | Some p1, Some p2 => (Player.timeUsed p1 ≤ Player.timeUsed p2)%Z
  | _, _ => False
  end.
Proof.
  intros evs1 evs2.
  destruct (playersOf (run hosting evs1) !! 0) as [p1|] eqn:E1;
    [|vm_compute in E1; discriminate].
  destruct (playersOf (run hosting (evs1 ++ evs2)%list) !! 0) as [p2|] eqn:E2;
    [|vm_compute in E2; discriminate].
  apply (timeUsed_nondecreasing 1000 hosting evs1 evs2 0 p1 p2).
  - split; [simpl; lia | apply Forall_singleton; vm_compute; discriminate].
  - simpl. lia.
  - repeat constructor.
  - repeat constructor.
  - exact E1.
  - exact E2.
Defined.

(** C7, as stated, fails. The host guesses while the session is still
    waiting, 60 seconds after creation; Bob is then admitted by
    [handlePlayerJoined], which stamps the start time anew; the host's next
    guess, under clock readings that never decrease, records 0 seconds. *)
Lemma timeUsed_drops_after_restamp :
  let evs1 := [PlayerGuess 61000 61001 "peer1" (Guess.mk "mouse" 0 61000)] in
  let evs2 := [PlayerJoined 61002 bob;
               PlayerGuess 62000 62001 "peer1" (Guess.mk "horse" 0 62000)] in
  timeInv 1000 hosting ∧
  nondecreasing 1000 ((evs1 ++ evs2)%list ≫= readings) ∧
  Forall freshJoin (evs1 ++ evs2)%list ∧
  Player.timeUsed <$> playersOf (run hosting evs1) !! 0 = Some 60%Z ∧
  Player.timeUsed <$> playersOf (run hosting (evs1 ++ evs2)%list) !! 0 = Some 0%Z.
Proof.
  intros evs1 evs2. split_and!.
  - split; [simpl; lia | apply Forall_singleton; vm_compute; discriminate].
  - simpl. lia.
  - repeat constructor.
  - vm_compute. reflexivity.
  - vm_compute. reflexivity.
Qed.

(** ** Reconnection *)

Local Ltac eff :=
  unfold mbind, mret, Eff_bind, Eff_ret, throw, getManager, setManager,
    getTransport, setTransport, localStorage.getItem, localStorage.setItem,
    localStorage.removeItem, postMessage, broadcastManager.broadcast,
    broadcastManager.send in *;
  simpl in *.

Lemma name_key_not_host g1 g2 :
  "jotto-host-" +:+ g1 ≠ "jotto-player-name-" +:+ g2.
Proof. simpl. discriminate. Qed.

Lemma name_key_not_game g1 g2 :
  "jotto-game-" +:+ g1 ≠ "jotto-player-name-" +:+ g2.
Proof. simpl. discriminate. Qed.

(** Leaving a session keeps the remembered names and sends no join
    request. *)
Lemma leaveGame_keeps fresh e e1 gameId :
  leaveGame fresh e = Returned () e1 →
  Env.localStorage e1 !! ("jotto-player-name-" +:+ gameId)
  = Env.localStorage e !! ("jotto-player-name-" +:+ gameId) ∧
  filter (λ msg, isJoinRequest msg = true) (Env.posted e1)
  = filter (λ msg, isJoinRequest msg = true) (Env.posted e).
Proof.
  destruct e as [[gs host me] [ch thost tgame myId] store posted].
  unfold leaveGame, broadcastManager.disconnect, broadcastManager.cleanup. eff.
  destruct me as [[|c0 me]|], ch as [[cname [|]]|], thost, tgame as [[|c1 tg]|];
    eff; intros H; try discriminate H; injection H as <-; simpl;
    rewrite ?lookup_delete_ne
      by (apply name_key_not_host || apply name_key_not_game);
    rewrite ?filter_app; simpl; rewrite ?filter_app; simpl;
    rewrite ?app_nil_r; done.
Qed.

(** With a host advertisement present and a name that is not blank,
    [joinGame] opens the channel of the game, remembers the name and sends
    one join request carrying the trimmed name. *)
Lemma joinGame_sends_request joined gameId playerName e :
  Js.truthy (Some (Js.trim playerName)) = true →
  Js.truthy (Env.localStorage e !! ("jotto-host-" +:+ gameId)) = true →
  ∃ e',
    joinGame joined gameId playerName e = Returned () e' ∧
    Env.posted e' =
      (Env.posted e ++
         [P2PMessage.mk ("jotto-game-" +:+ gameId) None
            (JoinRequestMsg
               (Player.mk (BroadcastManager.myId (Env.transport e))
                  (Js.trim playerName) [] 0 PPlaying joined))
            (BroadcastManager.myId (Env.transport e))])%list.
Proof.
  intros Hn Hh. unfold joinGame, broadcastManager.joinGame.
  rewrite Hn. cbn [negb]. eff. rewrite Hh. simpl. eauto.
Qed.

Lemma reconnectToGame_connected fresh joined gameId e :
  isConnectedToGame (Env.manager e) gameId = true →
  reconnectToGame fresh joined gameId e = Returned () e.
Proof. intros H. unfold reconnectToGame. eff. by rewrite H. Qed.

Lemma reconnectToGame_no_host fresh joined gameId e :
  isConnectedToGame (Env.manager e) gameId = false →
  Js.truthy (Env.localStorage e !! ("jotto-host-" +:+ gameId)) = false →
  reconnectToGame fresh joined gameId e
  = Threw "Game not found. The host may have left or the game may not exist." e.
Proof. intros H1 H2. unfold reconnectToGame. eff. by rewrite H1, H2. Qed.

Lemma reconnectToGame_after_leave fresh joined gameId e e1 :
  isConnectedToGame (Env.manager e) gameId = false →
  Js.truthy (Env.localStorage e !! ("jotto-host-" +:+ gameId)) = true →
  (if needsLeave (Env.manager e) gameId then leaveGame fresh e else Returned () e)
  = Returned () e1 →
  reconnectToGame fresh joined gameId e =
  match Env.localStorage e1 !! ("jotto-player-name-" +:+ gameId) with
  | Some (String c r) => joinGame joined gameId (String c r) e1
  | _ =>
      Threw "Cannot reconnect: player name not found. Please join the game manually." e1
  end.
Proof.
  intros Hc Hh Hl. unfold reconnectToGame, needsLeave in *.
  unfold mbind at 1 2 3 4, Eff_bind, getManager, localStorage.getItem, throw,
    mret, Eff_ret.
  rewrite Hc, Hh. cbn [negb].
  destruct (Manager.gameState (Env.manager e)) as [gs|].
  - destruct (bool_decide _);
      [rewrite Hl | injection Hl as <-]; cbv beta; by repeat case_match.
  - injection Hl as <-. cbv beta. by repeat case_match.
Qed.

(** The leave throws exactly when it has something to post and the channel
    is closed; nothing is written before the throw. *)
Lemma leaveGame_closed fresh e :
  channelClosed (Env.transport e) && leavePosts e = true →
  leaveGame fresh e = Threw "InvalidStateError" e.
Proof.
  destruct e as [[gs host me] [ch thost tgame myId] store posted].
  unfold channelClosed, leavePosts, leaveGame, broadcastManager.disconnect,
    broadcastManager.cleanup. eff.
  destruct me as [[|c0 me]|], ch as [[cname [|]]|], thost, tgame as [[|c1 tg]|];
    eff; intros H; done.
Qed.

Lemma leaveGame_returns fresh e :
  channelClosed (Env.transport e) && leavePosts e = false →
  ∃ e1, leaveGame fresh e = Returned () e1.
Proof.
  destruct e as [[gs host me] [ch thost tgame myId] store posted].
  unfold channelClosed, leavePosts, leaveGame, broadcastManager.disconnect,
    broadcastManager.cleanup. eff.
  destruct me as [[|c0 me]|], ch as [[cname [|]]|], thost, tgame as [[|c1 tg]|];
    eff; intros H; try discriminate H; by eexists.
Qed.

Lemma reconnectToGame_leave_throws fresh joined gameId e error e1 :
  isConnectedToGame (Env.manager e) gameId = false →
  Js.truthy (Env.localStorage e !! ("jotto-host-" +:+ gameId)) = true →
  needsLeave (Env.manager e) gameId = true →
  leaveGame fresh e = Threw error e1 →
  reconnectToGame fresh joined gameId e = Threw error e1.
Proof.
  intros Hc Hh Hn Hl. unfold reconnectToGame, needsLeave in *.
  unfold mbind at 1 2 3 4, Eff_bind, getManager, localStorage.getItem, throw,
    mret, Eff_ret.
  rewrite Hc, Hh. cbn [negb].
  destruct (Manager.gameState (Env.manager e)) as [gs|]; [|done].
  by rewrite Hn, Hl.
Qed.

(** C9, as the code has it. A process already connected to the game id
    returns at once. Otherwise, without a host advertisement the call
    throws the game-not-found error. With one, a session of another game
    is left first; when that leave has to post on a closed channel it
    throws, and the call fails with that error, nothing posted and nothing
    changed. In every other case the leave, if any, returns, and then:
    without a remembered name the call throws the cannot-reconnect error
    and no join request has been sent; with one it goes on as [joinGame]
    called with that name. *)
Theorem reconnectToGame_outcome (fresh : string) (joined : Z) (gameId : string)
    (e : Env.t) :
  (isConnectedToGame (Env.manager e) gameId = true →
   reconnectToGame fresh joined gameId e = Returned () e) ∧
  (isConnectedToGame (Env.manager e) gameId = false →
   Js.truthy (Env.localStorage e !! ("jotto-host-" +:+ gameId)) = false →
   reconnectToGame fresh joined gameId e
   = Threw "Game not found. The host may have left or the game may not exist." e) ∧
  (isConnectedToGame (Env.manager e) gameId = false →
   Js.truthy (Env.localStorage e !! ("jotto-host-" +:+ gameId)) = true →
   leaveThrows e gameId = true →
   reconnectToGame fresh joined gameId e = Threw "InvalidStateError" e) ∧
  (isConnectedToGame (Env.manager e) gameId = false →
   Js.truthy (Env.localStorage e !! ("jotto-host-" +:+ gameId)) = true →
   leaveThrows e gameId = false →
   ∃ e1,
     (if needsLeave (Env.manager e) gameId then leaveGame fresh e else Returned () e)
     = Returned () e1 ∧
     match Env.localStorage e !! ("jotto-player-name-" +:+ gameId) with
     | Some (String c r) =>
         reconnectToGame fresh joined gameId e
         = joinGame joined gameId (String c r) e1
     | _ =>
         reconnectToGame fresh joined gameId e
         = Threw "Cannot reconnect: player name not found. Please join the game manually." e1
         ∧ filter (λ msg, isJoinRequest msg = true) (Env.posted e1)
           = filter (λ msg, isJoinRequest msg = true) (Env.posted e)
     end).
Proof.
  split_and!.
  - apply reconnectToGame_connected.
  - apply reconnectToGame_no_host.
  - unfold leaveThrows. intros Hc Hh Ht.
    apply andb_true_iff in Ht as [[Hn Hcl]%andb_true_iff Hp].
    apply reconnectToGame_leave_throws; [done..|].
    apply leaveGame_closed. by rewrite Hcl, Hp.
  - unfold leaveThrows. intros Hc Hh Ht.
    assert (∃ e1, (if needsLeave (Env.manager e) gameId
                   then leaveGame fresh e else Returned () e) = Returned () e1)
      as [e1 Hl].
    { destruct (needsLeave _ _); [|by eexists].
      apply leaveGame_returns. by rewrite andb_true_l in Ht. }
    exists e1. split; [done|].
    assert (Env.localStorage e1 !! ("jotto-player-name-" +:+ gameId)
            = Env.localStorage e !! ("jotto-player-name-" +:+ gameId) ∧
            filter (λ msg, isJoinRequest msg = true) (Env.posted e1)
            = filter (λ msg, isJoinRequest msg = true) (Env.posted e)) as [Hn Hp].
    { destruct (needsLeave _ _);
        [by eapply leaveGame_keeps | by injection Hl as <-]. }
    rewrite (reconnectToGame_after_leave fresh joined gameId e e1 Hc Hh Hl), Hn.
    repeat case_match; done.
Qed.

Lemma reconnectToGame_outcome_witness :
  reconnectToGame "peer9" 2000 "123ZAB" remembering
  = joinGame 2000 "123ZAB" "Bob" remembering ∧
  (∃ e1,
     leaveGame "peer9" elsewhere = Returned () e1 ∧
     reconnectToGame "peer9" 2000 "123ZAB" elsewhere
     = joinGame 2000 "123ZAB" "Bob" e1) ∧
  reconnectToGame "peer9" 2000 "123ZAB" hiddenHost
  = Threw "InvalidStateError" hiddenHost.
Proof.
  split_and!.
  - destruct (proj2 (proj2 (proj2
               (reconnectToGame_outcome "peer9" 2000 "123ZAB" remembering)))
               eq_refl eq_refl eq_refl) as (e1 & [= <-] & H).
    exact H.
  - exact (proj2 (proj2 (proj2
             (reconnectToGame_outcome "peer9" 2000 "123ZAB" elsewhere)))
             eq_refl eq_refl eq_refl).
  - exact (proj1 (proj2 (proj2
             (reconnectToGame_outcome "peer9" 2000 "123ZAB" hiddenHost)))
             eq_refl eq_refl eq_refl).
Defined.

(** A session of another game is left before the join: the leave message
    goes out on the old channel, the join request on the new one. *)
Example reconnectToGame_leaves_first :
  reconnectToGame "peer9" 2000 "123ZAB" elsewhere
  = Returned ()
      (Env.mk (Manager.mk None false (Some "peer9"))
         (BroadcastManager.mk (Some (Channel.mk "jotto-game-123ZAB" false))
            false (Some "123ZAB") "peer9")
         (Env.localStorage remembering)
         [P2PMessage.mk "jotto-game-999XYZ" None (LeaveMsg "peer2") "peer2";
          P2PMessage.mk "jotto-game-123ZAB" None
            (JoinRequestMsg (Player.mk "peer9" "Bob" [] 0 PPlaying 2000))
            "peer9"]).
Proof. vm_compute. reflexivity. Qed.

(** The re-attempted join sends a join request under the remembered name. *)
Example reconnectToGame_rejoins :
  reconnectToGame "peer9" 2000 "123ZAB" remembering
  = Returned ()
      (Env.mk (Manager.mk None false (Some "peer2"))
         (BroadcastManager.mk (Some (Channel.mk "jotto-game-123ZAB" false))
            false (Some "123ZAB") "peer2")
         (Env.localStorage remembering)
         [P2PMessage.mk "jotto-game-123ZAB" None
            (JoinRequestMsg (Player.mk "peer2" "Bob" [] 0 PPlaying 2000))
            "peer2"]).
Proof. vm_compute. reflexivity. Qed.

(** C9, as stated, fails. With neither a remembered name nor a host
    advertisement the call throws the game-not-found error, not the
    cannot-reconnect one. *)
Lemma reconnectToGame_no_records :
  Env.localStorage (idle "peer2") !! "jotto-player-name-123ZAB" = None ∧
  reconnectToGame "peer9" 2000 "123ZAB" (idle "peer2")
  = Threw "Game not found. The host may have left or the game may not exist."
      (idle "peer2") ∧
  reconnectToGame "peer9" 2000 "123ZAB" (idle "peer2")
  ≠ Threw "Cannot reconnect: player name not found. Please join the game manually."
      (idle "peer2").
Proof. split_and!; [reflexivity | reflexivity | discriminate]. Qed.

(** A process already connected to the game returns at once, remembered
    name or not. *)
Example reconnectToGame_already_connected :
  let e := Env.mk hosting (BroadcastManager.mk None true (Some "123ZAB") "peer1") ∅ [] in
  reconnectToGame "peer9" 2000 "123ZAB" e = Returned () e.
Proof. reflexivity. Qed.

(** * Further properties *)

(** ** Scoring, beyond five-letter words *)

(** X1. For words of any lengths whose code units are below 256 (the
    strings of this development; every validated word is one) the
    common-letter count is bounded by the length of either word and does
    not depend on the order of the two. *)
Theorem calculateCommonLetters_bounded (hostWord guessWord : string) :
  calculateCommonLetters hostWord guessWord ≤ String.length hostWord ∧
  calculateCommonLetters hostWord guessWord ≤ String.length guessWord ∧
  calculateCommonLetters hostWord guessWord
  = calculateCommonLetters guessWord hostWord.
Proof.
  split_and!.
  - rewrite calculateCommonLetters_comm. apply calculateCommonLetters_le_length.
  - apply calculateCommonLetters_le_length.
  - apply calculateCommonLetters_comm.
Qed.

Lemma sum_zero (f : string → nat) (L : list string) :
  sum_list_with f L = 0 ↔ ∀ k, k ∈ L → f k = 0.
Proof.
  induction L as [|a L IH]; simpl.
  - split; [intros _ k Hk; by apply elem_of_nil in Hk | done].
  - split.
    + intros H k [->|Hk]%elem_of_cons; [lia|]. apply IH; [lia | done].
    + intros H. rewrite (H a) by left.
      apply IH. intros k Hk. apply H. by right.
Qed.

Lemma elem_of_split s k :
  k ∈ Js.split s ↔ ∃ c, k = String c EmptyString ∧ c ∈ chars s.
Proof. by rewrite split_chars, list_elem_of_fmap. Qed.

Lemma occ_zero k l : occ k l = 0 ↔ k ∉ l.
Proof. rewrite <- occ_pos. lia. Qed.

(** X2. The count is zero exactly when the two words, case folded, have no
    letter in common. *)
Theorem calculateCommonLetters_zero_iff (hostWord guessWord : string) :
  calculateCommonLetters hostWord guessWord = 0 ↔
  ∀ c, c ∈ letters guessWord → c ∉ letters hostWord.
Proof.
  rewrite calculateCommonLetters_overlap. unfold overlap, letters.
  rewrite sum_zero. split.
  - intros H c Hg Hh.
    assert (String c EmptyString ∈ Js.split (Js.toLowerCase guessWord)) as Hkg
      by (apply elem_of_split; eauto).
    assert (String c EmptyString ∈ Js.split (Js.toLowerCase hostWord)) as Hkh
      by (apply elem_of_split; eauto).
    specialize (H _ (proj2 (elem_of_keys_tally _ _) Hkg)).
    apply occ_pos in Hkg, Hkh. lia.
  - intros H k Hk. apply (proj1 (elem_of_keys_tally _ _)) in Hk.
    destruct (proj1 (elem_of_split _ _) Hk) as (c & -> & Hc).
    assert (String c EmptyString ∉ Js.split (Js.toLowerCase hostWord)) as Hn.
    { intros (c' & [= <-] & Hc')%elem_of_split. by apply (H c). }
    apply occ_zero in Hn. lia.
Qed.

Lemma lowerChar_idemp c : Js.lowerChar (Js.lowerChar c) = Js.lowerChar c.
Proof. destruct c as [[] [] [] [] [] [] [] []]; reflexivity. Qed.

Lemma lowerChar_upperChar c : Js.lowerChar (Js.upperChar c) = Js.lowerChar c.
Proof. destruct c as [[] [] [] [] [] [] [] []]; reflexivity. Qed.

Lemma mapString_compose f g s :
  Js.mapString f (Js.mapString g s) = Js.mapString (λ c, f (g c)) s.
Proof. induction s as [|c s IH]; simpl; [done|]. by rewrite IH. Qed.

Lemma mapString_ext f g s :
  (∀ c, c ∈ chars s → f c = g c) → Js.mapString f s = Js.mapString g s.
Proof.
  induction s as [|c s IH]; simpl; intros H; [done|].
  rewrite (H c) by left. rewrite IH; [done|]. intros; apply H. by right.
Qed.

Lemma toLowerCase_idemp s : Js.toLowerCase (Js.toLowerCase s) = Js.toLowerCase s.
Proof.
  unfold Js.toLowerCase. rewrite mapString_compose.
  apply mapString_ext. intros; apply lowerChar_idemp.
Qed.

Lemma toLowerCase_toUpperCase s :
  Js.toLowerCase (Js.toUpperCase s) = Js.toLowerCase s.
Proof.
  unfold Js.toLowerCase, Js.toUpperCase. rewrite mapString_compose.
  apply mapString_ext. intros; apply lowerChar_upperChar.
Qed.

(** X3. The count ignores case. Folding either word to small letters
    leaves it as it is; so does putting a word made of letters in
    capitals, which is what the host does to a guess before scoring it:
    the recorded count is the count of the word as typed. *)
Theorem calculateCommonLetters_case (hostWord guessWord : string) :
  calculateCommonLetters hostWord (Js.toLowerCase guessWord)
  = calculateCommonLetters hostWord guessWord ∧
  calculateCommonLetters (Js.toLowerCase hostWord) guessWord
  = calculateCommonLetters hostWord guessWord ∧
  ((∀ c, In c (chars guessWord) → isLetter c) →
   calculateCommonLetters hostWord (Js.toUpperCase guessWord)
   = calculateCommonLetters hostWord guessWord) ∧
  ((∀ c, In c (chars hostWord) → isLetter c) →
   calculateCommonLetters (Js.toUpperCase hostWord) guessWord
   = calculateCommonLetters hostWord guessWord).
Proof.
  unfold calculateCommonLetters.
  rewrite !toLowerCase_toUpperCase, !toLowerCase_idemp. done.
Qed.

Lemma calculateCommonLetters_case_witness :
  calculateCommonLetters "HOUSE" (Js.toUpperCase "mouse")
  = calculateCommonLetters "HOUSE" "mouse".
Proof.
  apply (proj1 (proj2 (proj2 (calculateCommonLetters_case "HOUSE" "mouse")))).
  apply classToEnd_spec. reflexivity.
Defined.

(** X4. Among words whose code units are below 256 (the strings of this
    development; every validated word is one), a word that [isWordCorrect]
    accepts gets the full count, the length of the word. *)
Theorem isWordCorrect_full_count (hostWord guessWord : string) :
  isWordCorrect hostWord guessWord = true →
  calculateCommonLetters hostWord guessWord = String.length guessWord.
Proof.
  unfold isWordCorrect. intros H%bool_decide_eq_true.
  apply calculateCommonLetters_full.
  - by rewrite <- (length_toLowerCase hostWord), H, length_toLowerCase.
  - unfold anagrams, letters. by rewrite H.
Qed.

Lemma isWordCorrect_full_count_witness :
  calculateCommonLetters "HOUSE" "house" = String.length "house".
Proof. apply (isWordCorrect_full_count "HOUSE" "house"). reflexivity. Defined.

Lemma upperChar_lowerChar_letter c :
  isLetter c → Js.upperChar (Js.lowerChar c) = Js.upperChar c.
Proof.
  unfold isLetter.
  destruct c as [[] [] [] [] [] [] [] []]; vm_compute; intros H;
    first [reflexivity | exfalso; lia].
Qed.

Lemma toUpperCase_toLowerCase_letters s :
  (∀ c, In c (chars s) → isLetter c) →
  Js.toUpperCase (Js.toLowerCase s) = Js.toUpperCase s.
Proof.
  intros H. unfold Js.toLowerCase, Js.toUpperCase. rewrite mapString_compose.
  apply mapString_ext. intros c Hc%list_elem_of_In.
  by apply upperChar_lowerChar_letter, H.
Qed.

(** X5. For two words made of letters, [isWordCorrect] holds exactly when
    the words agree once both are put in capitals: the player finishes
    exactly when the word recorded for the guess is the stored secret. *)
Theorem isWordCorrect_capitals (hostWord guessWord : string) :
  (∀ c, In c (chars hostWord) → isLetter c) →
  (∀ c, In c (chars guessWord) → isLetter c) →
  isWordCorrect hostWord guessWord = true ↔
  Js.toUpperCase hostWord = Js.toUpperCase guessWord.
Proof.
  intros Hh Hg. unfold isWordCorrect. rewrite bool_decide_eq_true. split.
  - intros H. rewrite <- (toUpperCase_toLowerCase_letters hostWord Hh), H.
    by apply toUpperCase_toLowerCase_letters.
  - intros H.
    by rewrite <- (toLowerCase_toUpperCase hostWord), H, toLowerCase_toUpperCase.
Qed.

Lemma isWordCorrect_capitals_witness :
  isWordCorrect "HOUSE" "hOuSe" = true ↔
  Js.toUpperCase "HOUSE" = Js.toUpperCase "hOuSe".
Proof.
  apply (isWordCorrect_capitals "HOUSE" "hOuSe");
    apply classToEnd_spec; reflexivity.
Defined.

(** ** The score of a finished player *)

(** X6. [calculateScore] is never negative; with a time that is not
    negative it is at most 500; it is 0 once 300 seconds and 20 guesses are
    reached; and it never grows when the time or the number of guesses
    grows. *)
Theorem calculateScore_range (guesses guesses' : list Guess.t) (timeUsed timeUsed' : Z) :
  (0 ≤ calculateScore guesses timeUsed)%Z ∧
  ((0 ≤ timeUsed)%Z → (calculateScore guesses timeUsed ≤ 500)%Z) ∧
  ((300 ≤ timeUsed)%Z → 20 ≤ length guesses → calculateScore guesses timeUsed = 0%Z) ∧
  ((timeUsed ≤ timeUsed')%Z → length guesses ≤ length guesses' →
   (calculateScore guesses' timeUsed' ≤ calculateScore guesses timeUsed)%Z).
Proof. unfold calculateScore. split_and!; intros; lia. Qed.

Lemma calculateScore_range_witness :
  (calculateScore [Guess.mk "MOUSE" 4 5000; Guess.mk "HOUSE" 5 9000] 8 ≤ 500)%Z.
Proof.
  apply (proj1 (proj2 (calculateScore_range
                         [Guess.mk "MOUSE" 4 5000; Guess.mk "HOUSE" 5 9000] [] 8 8))).
  lia.
Defined.

(** ** What no run of host events undoes *)

(** The three things a step can do to the game state. *)
Lemma step_cases m ev :
  step m ev = m ∨
  (∃ gs player status' start',
     Manager.gameState m = Some gs ∧
     step m ev =
       Manager.mk
         (Some (GameState.mk (GameState.gameId gs) (GameState.hostWord gs)
                  (GameState.players gs ++ [player])%list status' start'))
         (Manager.isHost m) (Manager.currentPlayerId m) ∧
     rank (GameState.status gs) ≤ rank status') ∨
  (∃ gs i old new status',
     Manager.gameState m = Some gs ∧
     GameState.players gs !! i = Some old ∧
     step m ev =
       Manager.mk
         (Some (GameState.mk (GameState.gameId gs) (GameState.hostWord gs)
                  (<[i := new]> (GameState.players gs)) status'
                  (GameState.startTime gs)))
         (Manager.isHost m) (Manager.currentPlayerId m) ∧
     rank (GameState.status gs) ≤ rank status' ∧
     Player.id new = Player.id old ∧
     Player.name new = Player.name old ∧
     Player.joinedAt new = Player.joinedAt old ∧
     Player.guesses old `prefix_of` Player.guesses new).
Proof.
  destruct ev as [player|now player|now stamp playerId guess|playerId]; simpl.
  - unfold handleJoinRequest.
    destruct (Manager.isHost m), (Manager.gameState m) as [gs|] eqn:Hg;
      try (by left).
    destruct (list_find _ _); [by left|].
    right; left. exists gs, player, (GameState.status gs), (GameState.startTime gs).
    done.
  - unfold handlePlayerJoined.
    destruct (Manager.isHost m), (Manager.gameState m) as [gs|] eqn:Hg;
      try (by left).
    destruct (list_find _ _); [by left|].
    right; left. eexists gs, player, _, _.
    split_and!; [done..|].
    simpl. case_bool_decide as Hw; [|by rewrite andb_false_r].
    rewrite Hw. destruct (_ && _); simpl; lia.
  - unfold handlePlayerGuess.
    destruct (Manager.isHost m), (Manager.gameState m) as [gs|] eqn:Hg;
      try (by left).
    destruct (list_find _ _) as [[i player]|] eqn:Hf; [|by left].
    case_bool_decide; [by left|].
    destruct (validateWord _); [|by left].
    apply list_find_Some in Hf as (Hi & _ & _).
    right; right. eexists gs, i, player, _, _.
    split_and!; [done..| | done | done | done |].
    + cbn -[allActiveFinished]. destruct (_ && _); [|done].
      destruct (GameState.status gs); simpl; lia.
    + by apply prefix_app_r.
  - unfold handlePlayerLeft.
    destruct (Manager.gameState m) as [gs|] eqn:Hg; [|by left].
    destruct (list_find _ _) as [[i player]|] eqn:Hf; [|by left].
    apply list_find_Some in Hf as (Hi & _ & _).
    right; right. eexists gs, i, player, _, _.
    split_and!; done.
Qed.

Lemma step_persist m ev i p :
  playersOf m !! i = Some p →
  ∃ p', playersOf (step m ev) !! i = Some p' ∧
        Player.id p' = Player.id p ∧ Player.name p' = Player.name p ∧
        Player.joinedAt p' = Player.joinedAt p ∧
        Player.guesses p `prefix_of` Player.guesses p'.
Proof.
  intros Hp.
  destruct (step_cases m ev)
    as [->|[(gs & pl & st & sta & Hg & -> & _)
           |(gs & j & old & new & st & Hg & Hj & -> & _ & ? & ? & ? & ?)]].
  - by exists p.
  - exists p. unfold playersOf in *. rewrite Hg in Hp. simpl in *.
    split_and!; [by apply lookup_app_l_Some | done..].
  - unfold playersOf in *. rewrite Hg in Hp. simpl in *.
    destruct (decide (j = i)) as [->|Hne].
    + exists new. rewrite list_lookup_insert_eq by (by eapply lookup_lt_Some).
      assert (old = p) as -> by congruence. done.
    + exists p. by rewrite list_lookup_insert_ne.
Qed.

Lemma run_persist m evs i p :
  playersOf m !! i = Some p →
  ∃ p', playersOf (run m evs) !! i = Some p' ∧
        Player.id p' = Player.id p ∧ Player.name p' = Player.name p ∧
        Player.joinedAt p' = Player.joinedAt p ∧
        Player.guesses p `prefix_of` Player.guesses p'.
Proof.
  revert m p. induction evs as [|ev evs IH]; intros m p Hp.
  - by exists p.
  - destruct (step_persist m ev i p Hp) as (p1 & Hp1 & Hi1 & Hn1 & Hj1 & Hg1).
    destruct (IH _ _ Hp1) as (p2 & Hp2 & Hi2 & Hn2 & Hj2 & Hg2).
    exists p2. split_and!; [done | congruence.. | by etrans].
Qed.

(** X7. Players are never removed or reordered, and a record keeps its id,
    its name and its join time; its guess list only grows at the end.
    This holds over every run of host events from every state. *)
Theorem run_players_persist (m : Manager.t) (evs : list Event) (i : nat)
    (p : Player.t) :
  playersOf m !! i = Some p →
  ∃ p', playersOf (run m evs) !! i = Some p' ∧
        Player.id p' = Player.id p ∧ Player.name p' = Player.name p ∧
        Player.joinedAt p' = Player.joinedAt p ∧
        Player.guesses p `prefix_of` Player.guesses p'.
Proof. apply run_persist. Qed.

Lemma run_players_persist_witness :
  ∃ p', playersOf (run hosting
                     [JoinRequest bob;
                      PlayerGuess 3000 3001 "peer1" (Guess.mk "mouse" 0 3000);
                      PlayerLeft "peer1"]) !! 0 = Some p' ∧
        Player.id p' = Player.id alice ∧ Player.name p' = Player.name alice ∧
        Player.joinedAt p' = Player.joinedAt alice ∧
        Player.guesses alice `prefix_of` Player.guesses p'.
Proof. apply (run_players_persist hosting _ 0 alice). reflexivity. Defined.

Lemma step_session m ev gs :
  Manager.gameState m = Some gs →
  ∃ gs', Manager.gameState (step m ev) = Some gs' ∧
         GameState.gameId gs' = GameState.gameId gs ∧
         GameState.hostWord gs' = GameState.hostWord gs ∧
         rank (GameState.status gs) ≤ rank (GameState.status gs').
Proof.
  intros Hg.
  destruct (step_cases m ev)
    as [->|[(gs0 & pl & st & sta & Hg0 & -> & ?)
           |(gs0 & j & old & new & st & Hg0 & Hj & -> & ? & _)]].
  - by exists gs.
  - assert (gs0 = gs) as -> by congruence. by eexists.
  - assert (gs0 = gs) as -> by congruence. by eexists.
Qed.

Lemma run_session m evs gs :
  Manager.gameState m = Some gs →
  ∃ gs', Manager.gameState (run m evs) = Some gs' ∧
         GameState.gameId gs' = GameState.gameId gs ∧
         GameState.hostWord gs' = GameState.hostWord gs ∧
         rank (GameState.status gs) ≤ rank (GameState.status gs').
Proof.
  revert m gs. induction evs as [|ev evs IH]; intros m gs Hg.
  - by exists gs.
  - destruct (step_session m ev gs Hg) as (gs1 & Hs1 & Hi1 & Hw1 & Hr1).
    destruct (IH _ _ Hs1) as (gs2 & Hs2 & Hi2 & Hw2 & Hr2).
    exists gs2. split_and!; [done | congruence.. | lia].
Qed.

(** X8. Over every run of host events the session keeps its game id and
    its secret word, and its status never moves back: from [Waiting] to
    [Playing] to [Finished] only. *)
Theorem run_session_forward (m : Manager.t) (evs : list Event) (gs : GameState.t) :
  Manager.gameState m = Some gs →
  ∃ gs', Manager.gameState (run m evs) = Some gs' ∧
         GameState.gameId gs' = GameState.gameId gs ∧
         GameState.hostWord gs' = GameState.hostWord gs ∧
         rank (GameState.status gs) ≤ rank (GameState.status gs').
Proof. apply run_session. Qed.

Lemma run_session_forward_witness :
  ∃ gs', Manager.gameState
           (run hosting
              [PlayerJoined 2000 bob;
               PlayerGuess 3000 3001 "peer1" (Guess.mk "house" 0 3000);
               PlayerLeft "peer2"]) = Some gs' ∧
         GameState.gameId gs' = "123ZAB" ∧
         GameState.hostWord gs' = "HOUSE" ∧
         rank Waiting ≤ rank (GameState.status gs').
Proof.
  apply (run_session_forward hosting _
           (GameState.mk "123ZAB" "HOUSE" [alice] Waiting (Some 1000%Z))).
  reflexivity.
Defined.

(** ** Snapshots follow every change on the host *)

Lemma broadcastGameState_host gs me :
  broadcastGameState (Manager.mk (Some gs) true me) = [Broadcast (GameStateMsg gs)].
Proof. by destruct gs. Qed.

(** With every transport call returning, a step of the host that changes
    the state lists a snapshot of the new state among its calls. *)
Lemma host_step_snapshot (m : Manager.t) (ev : Event) :
  Manager.isHost m = true →
  step m ev ≠ m →
  ∃ gs', Manager.gameState (step m ev) = Some gs' ∧
         Broadcast (GameStateMsg gs') ∈ callsOf m ev.
Proof.
  intros Hh.
  destruct ev as [player|now player|now stamp playerId guess|playerId];
    cbn [step callsOf].
  - unfold handleJoinRequest. rewrite Hh.
    destruct (Manager.gameState m) as [gs|]; [|done].
    destruct (list_find _ _); [done|]. intros _. cbn [fst snd Manager.gameState].
    eexists. split; [done|]. rewrite broadcastGameState_host.
    apply elem_of_cons. right. apply list_elem_of_here.
  - unfold handlePlayerJoined. rewrite Hh.
    destruct (Manager.gameState m) as [gs|]; [|done].
    destruct (list_find _ _); [done|]. intros _. cbn [fst snd Manager.gameState].
    eexists. split; [done|]. rewrite broadcastGameState_host.
    apply list_elem_of_here.
  - unfold handlePlayerGuess. rewrite Hh.
    destruct (Manager.gameState m) as [gs|]; [|done].
    destruct (list_find _ _) as [[i player]|]; [|done].
    case_bool_decide; [done|].
    destruct (validateWord _); [|done]. intros _.
    cbn [negb fst snd Manager.gameState].
    eexists. split; [done|]. rewrite broadcastGameState_host.
    apply elem_of_app. right. apply elem_of_cons. right. apply list_elem_of_here.
  - unfold handlePlayerLeft.
    destruct (Manager.gameState m) as [gs|]; [|done].
    destruct (list_find _ _) as [[i player]|]; [|done]. intros _.
    rewrite Hh. cbn [fst snd Manager.gameState].
    eexists. split; [done|]. rewrite broadcastGameState_host.
    apply list_elem_of_here.
Qed.

(** The handlers in the process. With a channel that takes posts each
    handler returns, ends in the state computed by [step] and has posted
    the calls listed by [callsOf], in order. *)
Local Ltac effh :=
  unfold P2PGameManager.setGameState, P2PGameManager.broadcastGameState,
    broadcastGameState, mbind, mret, Eff_bind, Eff_ret, throw, getManager,
    setManager, getTransport, setTransport, postMessage,
    broadcastManager.broadcast, broadcastManager.send, postedAs;
  cbn -[list_find validateWord calculateCommonLetters isWordCorrect
        allActiveFinished elapsedSeconds Js.toUpperCase insert].

Lemma handle_usable_channel ev e :
  channelUsable (Env.transport e) = true →
  ∃ e',
    P2PGameManager.handle ev e = Returned () e' ∧
    Env.manager e' = step (Env.manager e) ev ∧
    Env.transport e' = Env.transport e ∧
    Env.localStorage e' = Env.localStorage e ∧
    Env.posted e' =
      (Env.posted e ++
         match BroadcastManager.channel (Env.transport e) with
         | Some c =>
             postedAs (Channel.name c) (BroadcastManager.myId (Env.transport e))
               (callsOf (Env.manager e) ev)
         | None => []
         end)%list.
Proof.
  destruct e as [[gs host me] [ch thost tgame myId] store posted].
  unfold channelUsable, channelClosed. cbn. intros Hc.
  assert (ch = None ∨ ∃ name, ch = Some (Channel.mk name false)) as Hch.
  { destruct ch as [[name []]|]; [done | right; by eexists | by left]. }
  clear Hc.
  destruct ev as [player|now player|now stamp playerId guess|playerId];
    cbn [P2PGameManager.handle step callsOf].
  - unfold P2PGameManager.handleJoinRequest, handleJoinRequest. effh.
    destruct host, gs as [g|]; effh;
      try (eexists; split_and!; [done..|];
           destruct Hch as [->|[name ->]]; cbn; by rewrite ?app_nil_r).
    destruct (list_find _ _); effh;
      destruct Hch as [->|[name ->]]; effh;
      eexists; split_and!; try done; cbn; by rewrite <- ?app_assoc, ?app_nil_r.
  - unfold P2PGameManager.handlePlayerJoined, handlePlayerJoined. effh.
    destruct host, gs as [g|]; effh;
      try (eexists; split_and!; [done..|];
           destruct Hch as [->|[name ->]]; cbn; by rewrite ?app_nil_r).
    destruct (list_find _ _); effh;
      [destruct Hch as [->|[name ->]]; effh;
       eexists; split_and!; try done; cbn; by rewrite <- ?app_assoc, ?app_nil_r|].
    destruct (_ && _); effh; destruct Hch as [->|[name ->]]; effh;
      eexists; split_and!; try done; cbn; by rewrite <- ?app_assoc, ?app_nil_r.
  - unfold P2PGameManager.handlePlayerGuess, handlePlayerGuess. effh.
    destruct host, gs as [g|]; effh;
      try (eexists; split_and!; [done..|];
           destruct Hch as [->|[name ->]]; cbn; by rewrite ?app_nil_r).
    destruct (list_find _ _) as [[i player]|]; effh;
      [|eexists; split_and!; [done..|];
        destruct Hch as [->|[name ->]]; cbn; by rewrite ?app_nil_r].
    case_bool_decide; effh;
      [eexists; split_and!; [done..|];
        destruct Hch as [->|[name ->]]; cbn; by rewrite ?app_nil_r|].
    destruct (validateWord _); effh;
      [|destruct Hch as [->|[name ->]]; effh;
        eexists; split_and!; try done; cbn; by rewrite <- ?app_assoc, ?app_nil_r].
    destruct (isWordCorrect _ _); effh;
      [destruct (allActiveFinished _)|]; effh;
      destruct Hch as [->|[name ->]]; effh;
      eexists; split_and!; try done; cbn; by rewrite <- ?app_assoc, ?app_nil_r.
  - unfold P2PGameManager.handlePlayerLeft, handlePlayerLeft. effh.
    destruct gs as [g|]; effh;
      [|eexists; split_and!; [done..|];
        destruct Hch as [->|[name ->]]; cbn; by rewrite ?app_nil_r].
    destruct (list_find _ _) as [[i player]|]; effh;
      [|eexists; split_and!; [done..|];
        destruct Hch as [->|[name ->]]; cbn; by rewrite ?app_nil_r].
    destruct host; effh; destruct Hch as [->|[name ->]]; effh;
      eexists; split_and!; try done; cbn; by rewrite <- ?app_assoc, ?app_nil_r.
Qed.

(** On a closed channel the first call of a handler throws: a handler of
    the host that has written to the state by then ends there, nothing
    posted. *)
Lemma handle_closed_channel ev e name :
  Manager.isHost (Env.manager e) = true →
  BroadcastManager.channel (Env.transport e) = Some (Channel.mk name true) →
  Env.manager (envOf (P2PGameManager.handle ev e)) ≠ Env.manager e →
  ∃ e', P2PGameManager.handle ev e = Threw "InvalidStateError" e' ∧
        Env.posted e' = Env.posted e.
Proof.
  destruct e as [[gs host me] [ch thost tgame myId] store posted].
  cbn. intros -> ->.
  destruct ev as [player|now player|now stamp playerId guess|playerId];
    cbn [P2PGameManager.handle].
  - unfold P2PGameManager.handleJoinRequest. effh.
    destruct gs as [g|]; effh; [|done].
    destruct (list_find _ _); effh; [done|]. intros _. by eexists.
  - unfold P2PGameManager.handlePlayerJoined. effh.
    destruct gs as [g|]; effh; [|done].
    destruct (list_find _ _); effh; [done|].
    destruct (_ && _); effh; intros _; by eexists.
  - unfold P2PGameManager.handlePlayerGuess. effh.
    destruct gs as [g|]; effh; [|done].
    destruct (list_find _ _) as [[i player]|]; effh; [|done].
    case_bool_decide; effh; [done|].
    destruct (validateWord _); effh; [|done].
    destruct (isWordCorrect _ _); effh; intros _; by eexists.
  - unfold P2PGameManager.handlePlayerLeft. effh.
    destruct gs as [g|]; effh; [|done].
    destruct (list_find _ _) as [[i player]|]; effh; [|done].
    intros _; by eexists.
Qed.

(** X9. On the host with an open channel, a handler that changes the
    manager state returns and has posted a snapshot of the state it ends
    in. With the channel closed, as [cleanup] leaves it when the host's
    page was hidden, a handler that changes the state throws with nothing
    posted: the change stays with the host. *)
Theorem host_change_is_broadcast (ev : Event) (e : Env.t) (name : string)
    (closed : bool) :
  Manager.isHost (Env.manager e) = true →
  BroadcastManager.channel (Env.transport e) = Some (Channel.mk name closed) →
  Env.manager (envOf (P2PGameManager.handle ev e)) ≠ Env.manager e →
  if closed then
    ∃ e', P2PGameManager.handle ev e = Threw "InvalidStateError" e' ∧
          Env.posted e' = Env.posted e
  else
    ∃ e' gs' msgs,
      P2PGameManager.handle ev e = Returned () e' ∧
      Manager.gameState (Env.manager e') = Some gs' ∧
      Env.posted e' = (Env.posted e ++ msgs)%list ∧
      P2PMessage.mk name None (GameStateMsg gs')
        (BroadcastManager.myId (Env.transport e)) ∈ msgs.
Proof.
  intros Hh Hc Hne. destruct closed.
  - by eapply handle_closed_channel.
  - destruct (handle_usable_channel ev e) as (e' & He & Hm & _ & _ & Hp).
    { unfold channelUsable, channelClosed. by rewrite Hc. }
    rewrite He in Hne. cbn in Hne. rewrite Hm in Hne.
    destruct (host_step_snapshot _ _ Hh Hne) as (gs' & Hg & Hin).
    rewrite Hc in Hp. cbn in Hp.
    exists e', gs', (postedAs name (BroadcastManager.myId (Env.transport e))
                       (callsOf (Env.manager e) ev)).
    split_and!; [done | by rewrite Hm | done |].
    unfold postedAs. apply list_elem_of_fmap.
    exists (Broadcast (GameStateMsg gs')). done.
Qed.

Lemma host_change_is_broadcast_witness :
  (∃ e' gs' msgs,
     P2PGameManager.handle (JoinRequest bob) (hostProcess false) = Returned () e' ∧
     Manager.gameState (Env.manager e') = Some gs' ∧
     Env.posted e' = (Env.posted (hostProcess false) ++ msgs)%list ∧
     P2PMessage.mk "jotto-game-123ZAB" None (GameStateMsg gs') "peer1" ∈ msgs) ∧
  (∃ e',
     P2PGameManager.handle (JoinRequest bob) (hostProcess true)
     = Threw "InvalidStateError" e' ∧
     Env.posted e' = Env.posted (hostProcess true)).
Proof.
  split.
  - apply (host_change_is_broadcast (JoinRequest bob) (hostProcess false)
             "jotto-game-123ZAB" false); [reflexivity | reflexivity |].
    vm_compute. discriminate.
  - apply (host_change_is_broadcast (JoinRequest bob) (hostProcess true)
             "jotto-game-123ZAB" true); [reflexivity | reflexivity |].
    vm_compute. discriminate.
Defined.

(** The host guesses its word on a closed channel: the guess is recorded
    and the player finished, the first broadcast throws, and the session
    status, which the run with the calls returning moves to finished,
    stays as it was. *)
Example host_guess_on_closed_channel :
  P2PGameManager.handle (PlayerGuess 3000 3001 "peer1" (Guess.mk "house" 0 3000))
    (hostProcess true)
  = Threw "InvalidStateError"
      (Env.mk
         (Manager.mk
            (Some (GameState.mk "123ZAB" "HOUSE"
                     [Player.mk "peer1" "Alice" [Guess.mk "HOUSE" 5 3001] 2
                        PFinished 1000]
                     Waiting (Some 1000%Z)))
            true (Some "peer1"))
         (Env.transport (hostProcess true)) ∅ []) ∧
  statusOf (step hosting (PlayerGuess 3000 3001 "peer1" (Guess.mk "house" 0 3000)))
  = Some Finished.
Proof. split; vm_compute; reflexivity. Qed.



(** ** A process that is not the host *)

Lemma non_host_step m ev :
  Manager.isHost m = false →
  callsOf m ev = [] ∧
  Manager.isHost (step m ev) = false ∧
  Manager.currentPlayerId (step m ev) = Manager.currentPlayerId m ∧
  statusOf (step m ev) = statusOf m ∧
  startOf (step m ev) = startOf m ∧
  GameState.gameId <$> Manager.gameState (step m ev)
  = GameState.gameId <$> Manager.gameState m ∧
  GameState.hostWord <$> Manager.gameState (step m ev)
  = GameState.hostWord <$> Manager.gameState m ∧
  withoutStatus <$> playersOf (step m ev) = withoutStatus <$> playersOf m.
Proof.
  intros Hh.
  destruct ev as [player|now player|now stamp playerId guess|playerId]; simpl.
  - unfold handleJoinRequest. by rewrite Hh.
  - unfold handlePlayerJoined. by rewrite Hh.
  - unfold handlePlayerGuess. by rewrite Hh.
  - unfold handlePlayerLeft, statusOf, startOf, playersOf.
    destruct (Manager.gameState m) as [gs|] eqn:Hg;
      [|cbn [fst snd]; by rewrite Hg].
    destruct (list_find _ _) as [[i player]|] eqn:Hf;
      [|cbn [fst snd]; by rewrite Hg].
    rewrite Hh. simpl. split_and!; try done.
    apply list_find_Some in Hf as (Hi & _ & _).
    rewrite list_fmap_insert. apply list_insert_id.
    by rewrite list_lookup_fmap, Hi.
Qed.

(** X10. On a process that is not the host no run of events makes a call
    on the transport, and nothing of the cached game changes but the
    status of players marked as left: game id, secret field, session
    status, start time and every player's id, name, guesses, time and join
    time stay as they are. *)
Theorem non_host_run (m : Manager.t) (evs : list Event) :
  Manager.isHost m = false →
  allCalls m evs = [] ∧
  statusOf (run m evs) = statusOf m ∧
  startOf (run m evs) = startOf m ∧
  GameState.gameId <$> Manager.gameState (run m evs)
  = GameState.gameId <$> Manager.gameState m ∧
  GameState.hostWord <$> Manager.gameState (run m evs)
  = GameState.hostWord <$> Manager.gameState m ∧
  withoutStatus <$> playersOf (run m evs) = withoutStatus <$> playersOf m.
Proof.
  revert m. induction evs as [|ev evs IH]; intros m Hh; [done|].
  destruct (non_host_step m ev Hh) as (Hc & Hh' & _ & Hs & Ht & Hi & Hw & Hp).
  destruct (IH _ Hh') as (Hc' & Hs' & Ht' & Hi' & Hw' & Hp').
  simpl. rewrite Hc, Hc'. split_and!; [done | congruence..].
Qed.

Lemma non_host_run_witness :
  let m := Manager.mk (Manager.gameState hosting) false (Some "peer2") in
  allCalls m [PlayerGuess 3000 3001 "peer1" (Guess.mk "mouse" 0 3000);
              PlayerLeft "peer1"] = [].
Proof.
  intros m.
  apply (proj1 (non_host_run m
                  [PlayerGuess 3000 3001 "peer1" (Guess.mk "mouse" 0 3000);
                   PlayerLeft "peer1"] eq_refl)).
Defined.

(** ** What the host records for a guess *)

Lemma upperChar_letter_capital c : isLetter c → isCapital (Js.upperChar c).
Proof.
  unfold isLetter, isCapital.
  destruct c as [[] [] [] [] [] [] [] []]; vm_compute; lia.
Qed.

Lemma isCapital_isLetter c : isCapital c → isLetter c.
Proof. unfold isCapital, isLetter. tauto. Qed.

Lemma validateWord_letters w :
  validateWord w = true ↔ String.length w = 5 ∧ ∀ c, In c (chars w) → isLetter c.
Proof.
  unfold validateWord. rewrite andb_true_iff, Nat.eqb_eq.
  destruct w as [|a w]; [simpl; split; intros [? ?]; discriminate|].
  change (Js.testLetters (String a w)) with (Js.classToEnd (String a w)).
  by rewrite classToEnd_spec.
Qed.

Lemma validateWord_toUpperCase w :
  validateWord w = true →
  validateWord (Js.toUpperCase w) = true ∧
  Forall isCapital (chars (Js.toUpperCase w)).
Proof.
  intros [Hlen Hl]%validateWord_letters.
  assert (Forall isCapital (chars (Js.toUpperCase w))) as Hc.
  { unfold Js.toUpperCase. rewrite chars_mapString. apply Forall_fmap, Forall_forall.
    intros c Hc%list_elem_of_In. by apply upperChar_letter_capital, Hl. }
  split; [|done]. apply validateWord_letters. split.
  - unfold Js.toUpperCase. by rewrite length_mapString.
  - intros c Hin%list_elem_of_In.
    by apply isCapital_isLetter, (proj1 (Forall_forall _ _) Hc).
Qed.

Lemma scored_le hostWord g : scored hostWord g → Guess.commonLetters g ≤ 5.
Proof.
  intros ([Hlen _]%validateWord_letters & _ & ->).
  rewrite <- Hlen. apply calculateCommonLetters_le_length.
Qed.

Lemma step_scored m ev :
  guessesScored m → noGuessJoin ev → guessesScored (step m ev).
Proof.
  intros Hinv Hjoin.
  destruct ev as [player|now player|now stamp playerId guess|playerId];
    cbn [step]; simpl in Hjoin.
  - unfold handleJoinRequest.
    destruct (Manager.isHost m), (Manager.gameState m) as [gs|] eqn:Hg; try done.
    destruct (list_find _ _); [done|].
    intros gs' [= <-]. simpl. apply Forall_app. split; [by apply (Hinv gs Hg)|].
    apply Forall_singleton. by rewrite Hjoin.
  - unfold handlePlayerJoined.
    destruct (Manager.isHost m), (Manager.gameState m) as [gs|] eqn:Hg; try done.
    destruct (list_find _ _); [done|].
    intros gs' [= <-]. simpl. apply Forall_app. split; [by apply (Hinv gs Hg)|].
    apply Forall_singleton. by rewrite Hjoin.
  - unfold handlePlayerGuess.
    destruct (Manager.isHost m), (Manager.gameState m) as [gs|] eqn:Hg; try done.
    destruct (list_find _ _) as [[i player]|] eqn:Hf; [|done].
    case_bool_decide; [done|].
    destruct (validateWord _) eqn:Hv; [|done].
    intros gs' [= <-]. cbn -[allActiveFinished calculateCommonLetters].
    apply list_find_Some in Hf as (Hi & _ & _).
    specialize (Hinv gs Hg).
    apply Forall_insert; [done|]. simpl.
    apply Forall_app. split.
    + by eapply (proj1 (Forall_lookup _ _) Hinv).
    + apply Forall_singleton.
      destruct (validateWord_toUpperCase _ Hv). by split_and!.
  - unfold handlePlayerLeft.
    destruct (Manager.gameState m) as [gs|] eqn:Hg; [|done].
    destruct (list_find _ _) as [[i player]|] eqn:Hf; [|done].
    intros gs' [= <-]. simpl.
    apply list_find_Some in Hf as (Hi & _ & _).
    specialize (Hinv gs Hg).
    apply Forall_insert; [done|]. simpl.
    by eapply (proj1 (Forall_lookup _ _) Hinv).
Qed.

(** X11. Starting from a state whose recorded guesses are well formed (a
    new game has none) and admitting players that bring no guesses, every
    guess the host holds after any run is a valid five-letter word in
    capitals, carries the common-letter count of that word against the
    secret, and that count is at most 5. *)
Theorem recorded_guesses_scored (m : Manager.t) (evs : list Event)
    (gs : GameState.t) (p : Player.t) (g : Guess.t) :
  guessesScored m →
  Forall noGuessJoin evs →
  Manager.gameState (run m evs) = Some gs →
  p ∈ GameState.players gs →
  g ∈ Player.guesses p →
  scored (GameState.hostWord gs) g ∧ Guess.commonLetters g ≤ 5.
Proof.
  intros Hinv Hjoin Hg Hp Hin.
  assert (guessesScored (run m evs)) as Hrun.
  { clear Hg. revert m Hinv. induction Hjoin as [|ev evs Hev _ IH]; intros m Hinv.
    - done.
    - apply IH. by apply step_scored. }
  specialize (Hrun gs Hg).
  pose proof (proj1 (Forall_forall _ _) Hrun p Hp) as Hgs. simpl in Hgs.
  pose proof (proj1 (Forall_forall _ _) Hgs g Hin) as Hsc.
  split; [done | by eapply scored_le].
Qed.

Lemma recorded_guesses_scored_witness :
  scored "HOUSE" (Guess.mk "MOUSE" 4 3001) ∧ 4 ≤ 5.
Proof.
  apply (recorded_guesses_scored hosting
           [PlayerGuess 3000 3001 "peer1" (Guess.mk "mouse" 0 3000)]
           (GameState.mk "123ZAB" "HOUSE"
              [Player.mk "peer1" "Alice" [Guess.mk "MOUSE" 4 3001] 2 PPlaying 1000]
              Waiting (Some 1000%Z))
           (Player.mk "peer1" "Alice" [Guess.mk "MOUSE" 4 3001] 2 PPlaying 1000)
           (Guess.mk "MOUSE" 4 3001)).
  - intros gs [= <-]. simpl. repeat constructor.
  - repeat constructor.
  - vm_compute. reflexivity.
  - apply list_elem_of_here.
  - apply list_elem_of_here.
Defined.

(** ** The record of the process itself *)

Lemma list_find_id_persist (me : string) (l l' : list Player.t) i p :
  list_find (λ q, Player.id q = me) l = Some (i, p) →
  (∀ j q, l !! j = Some q →
          ∃ q', l' !! j = Some q' ∧ Player.id q' = Player.id q) →
  ∃ p', list_find (λ q, Player.id q = me) l' = Some (i, p') ∧ l' !! i = Some p'.
Proof.
  intros (Hi & Hid & Hfirst)%list_find_Some Hkeep.
  destruct (Hkeep i p Hi) as (p' & Hi' & Hid').
  exists p'. split; [|done]. apply list_find_Some. split_and!; [done | congruence |].
  intros j y Hj Hlt Hy.
  assert (is_Some (l !! j)) as [q Hq].
  { apply lookup_lt_is_Some. apply lookup_lt_Some in Hi. lia. }
  destruct (Hkeep j q Hq) as (q' & Hq' & Hidq).
  assert (y = q') as -> by congruence.
  apply (Hfirst j q Hq Hlt). congruence.
Qed.

Lemma run_currentPlayerId m evs :
  Manager.currentPlayerId (run m evs) = Manager.currentPlayerId m.
Proof.
  revert m. induction evs as [|ev evs IH]; intros m; [done|].
  simpl. rewrite IH.
  destruct (step_cases m ev) as [->|[(?&?&?&?&?&->&?)|(?&?&?&?&?&?&?&->&?)]]; done.
Qed.

(** X12. Once [getCurrentPlayer] finds the record of the process, it keeps
    finding one after every run of host events: a record with the same id,
    name and join time whose guesses extend the earlier ones. *)
Theorem getCurrentPlayer_persists (m : Manager.t) (evs : list Event) (p : Player.t) :
  getCurrentPlayer m = Some p →
  ∃ p', getCurrentPlayer (run m evs) = Some p' ∧
        Player.id p' = Player.id p ∧ Player.name p' = Player.name p ∧
        Player.joinedAt p' = Player.joinedAt p ∧
        Player.guesses p `prefix_of` Player.guesses p'.
Proof.
  unfold getCurrentPlayer. rewrite run_currentPlayerId.
  destruct (Manager.gameState m) as [gs|] eqn:Hg; [|done].
  destruct (Manager.currentPlayerId m) as [[|c me]|]; try done.
  destruct (list_find _ (GameState.players gs)) as [[i q]|] eqn:Hf; [|done].
  intros [= <-].
  destruct (run_session m evs gs Hg) as (gs' & Hg' & _).
  rewrite Hg'.
  destruct (list_find_id_persist _ _ (GameState.players gs') _ _ Hf) as (p' & Hf' & Hi').
  { intros j r Hj.
    destruct (run_persist m evs j r) as (r' & Hr' & Hid & _).
    - unfold playersOf. by rewrite Hg.
    - exists r'. unfold playersOf in Hr'. rewrite Hg' in Hr'. done. }
  rewrite Hf'. exists p'. split; [done|].
  apply list_find_Some in Hf as (Hi & _ & _).
  destruct (run_persist m evs i q) as (r' & Hr' & Hrest).
  { unfold playersOf. by rewrite Hg. }
  unfold playersOf in Hr'. rewrite Hg' in Hr'. simpl in Hr'.
  assert (r' = p') as -> by congruence. done.
Qed.

Lemma getCurrentPlayer_persists_witness :
  ∃ p', getCurrentPlayer
          (run hosting
             [JoinRequest bob;
              PlayerGuess 3000 3001 "peer1" (Guess.mk "mouse" 0 3000)]) = Some p' ∧
        Player.id p' = Player.id alice ∧ Player.name p' = Player.name alice ∧
        Player.joinedAt p' = Player.joinedAt alice ∧
        Player.guesses alice `prefix_of` Player.guesses p'.
Proof. apply (getCurrentPlayer_persists hosting _ alice). reflexivity. Defined.

(** ** Creating, joining and leaving a game *)

Local Ltac effk :=
  unfold mbind, mret, Eff_bind, Eff_ret, throw, getManager, setManager,
    getTransport, setTransport, localStorage.getItem, localStorage.setItem,
    localStorage.removeItem, postMessage, broadcastManager.broadcast,
    broadcastManager.send;
  cbn -[insert lookup delete generateGameId String.append Js.toUpperCase
        Js.trim stringifyHostInfo].

Lemma truthy_trim_false s : Js.truthy (Some s) = false ↔ s = "".
Proof. destruct s; simpl; split; congruence. Qed.

(** X13. [createGame] throws on a word that [validateWord] rejects and on a
    blank name, in that order, and then leaves everything as it was.
    Otherwise it returns the generated id, makes the process the host of a
    waiting game with itself as only player (name trimmed, secret in
    capitals), stores the host advertisement and the name under that id,
    and posts one snapshot on the channel of the game. *)
Theorem createGame_outcome (digits : list nat) (joined started registered : Z)
    (hostWord playerName : string) (e : Env.t) :
  (validateWord hostWord = false →
   createGame digits joined started registered hostWord playerName e
   = Threw "Invalid host word. Must be a 5-letter word." e) ∧
  (validateWord hostWord = true → Js.trim playerName = "" →
   createGame digits joined started registered hostWord playerName e
   = Threw "Player name is required." e) ∧
  (validateWord hostWord = true → Js.trim playerName ≠ "" →
   let me := BroadcastManager.myId (Env.transport e) in
   let gameId := generateGameId digits in
   let gs :=
     GameState.mk gameId (Js.toUpperCase hostWord)
       [Player.mk me (Js.trim playerName) [] 0 PPlaying joined]
       Waiting (Some started) in
   ∃ e',
     createGame digits joined started registered hostWord playerName e
     = Returned gameId e' ∧
     Env.manager e' = Manager.mk (Some gs) true (Some me) ∧
     Env.transport e' =
       BroadcastManager.mk (Some (Channel.mk ("jotto-game-" +:+ gameId) false))
         true (Some gameId) me ∧
     Env.localStorage e' !! ("jotto-player-name-" +:+ gameId)
     = Some (Js.trim playerName) ∧
     Js.truthy (Env.localStorage e' !! ("jotto-host-" +:+ gameId)) = true ∧
     Env.posted e' =
       (Env.posted e ++
          [P2PMessage.mk ("jotto-game-" +:+ gameId) None (GameStateMsg gs) me])%list).
Proof.
  unfold createGame. split_and!.
  - by intros ->.
  - intros -> ->. done.
  - intros -> Hn. destruct (Js.trim playerName) as [|c r] eqn:Ht; [done|].
    cbn [negb Js.truthy]. unfold broadcastManager.createGame. effk.
    eexists. split_and!; try reflexivity.
    + cbn [Env.localStorage]. apply lookup_insert_eq.
    + cbn [Env.localStorage].
      rewrite lookup_insert_ne by apply not_eq_sym, name_key_not_host.
      by rewrite lookup_insert_eq.
Qed.

Lemma createGame_outcome_witness :
  ∃ e',
    createGame [1; 2; 3; 35; 10; 11] 1000 1000 1001 "house" " Alice " (idle "peer1")
    = Returned "123ZAB" e' ∧
    Env.manager e' = hosting.
Proof.
  destruct (proj2 (proj2 (createGame_outcome [1; 2; 3; 35; 10; 11] 1000 1000 1001
                            "house" " Alice " (idle "peer1")))
              eq_refl ltac:(discriminate)) as (e' & H1 & H2 & _).
  exists e'. split; [exact H1 | exact H2].
Defined.

Lemma joinGame_cases (joined : Z) (gameId playerName : string) (e : Env.t) :
  let me := BroadcastManager.myId (Env.transport e) in
  let m' :=
    Manager.mk (Manager.gameState (Env.manager e))
      (Manager.isHost (Env.manager e)) (Some me) in
  (Js.trim playerName = "" →
   joinGame joined gameId playerName e = Threw "Player name is required." e) ∧
  (Js.trim playerName ≠ "" →
   Js.truthy (Env.localStorage e !! ("jotto-host-" +:+ gameId)) = false →
   joinGame joined gameId playerName e
   = Threw "Game not found. The host may have left or the game may not exist."
       (Env.mk m' (Env.transport e) (Env.localStorage e) (Env.posted e))) ∧
  (Js.trim playerName ≠ "" →
   Js.truthy (Env.localStorage e !! ("jotto-host-" +:+ gameId)) = true →
   joinGame joined gameId playerName e
   = Returned ()
       (Env.mk m'
          (BroadcastManager.mk (Some (Channel.mk ("jotto-game-" +:+ gameId) false))
             (BroadcastManager.isHost (Env.transport e)) (Some gameId) me)
          (<["jotto-player-name-" +:+ gameId := Js.trim playerName]>
             (Env.localStorage e))
          (Env.posted e ++
             [P2PMessage.mk ("jotto-game-" +:+ gameId) None
                (JoinRequestMsg
                   (Player.mk me (Js.trim playerName) [] 0 PPlaying joined))
                me])%list)).
Proof.
  unfold joinGame, broadcastManager.joinGame. split_and!.
  - by intros ->.
  - intros Hn Hh. destruct (Js.trim playerName) as [|c r] eqn:Ht; [done|].
    cbn [negb Js.truthy]. eff. by rewrite Hh.
  - intros Hn Hh. destruct (Js.trim playerName) as [|c r] eqn:Ht; [done|].
    cbn [negb Js.truthy]. eff. by rewrite Hh.
Qed.


(** X14. [joinGame] throws on a blank name and leaves everything as it
    was. Without a host advertisement for the game it throws the
    game-not-found error after it has taken the transport's id as current
    player id: nothing is posted or stored. Otherwise it opens the channel
    of the game, stores the trimmed name and posts one join request for a
    new record with that name, no guesses and time 0. *)
Theorem joinGame_outcome (joined : Z) (gameId playerName : string) (e : Env.t) :
  let me := BroadcastManager.myId (Env.transport e) in
  let m' :=
    Manager.mk (Manager.gameState (Env.manager e))
      (Manager.isHost (Env.manager e)) (Some me) in
  (Js.trim playerName = "" →
   joinGame joined gameId playerName e = Threw "Player name is required." e) ∧
  (Js.trim playerName ≠ "" →
   Js.truthy (Env.localStorage e !! ("jotto-host-" +:+ gameId)) = false →
   joinGame joined gameId playerName e
   = Threw "Game not found. The host may have left or the game may not exist."
       (Env.mk m' (Env.transport e) (Env.localStorage e) (Env.posted e))) ∧
  (Js.trim playerName ≠ "" →
   Js.truthy (Env.localStorage e !! ("jotto-host-" +:+ gameId)) = true →
   joinGame joined gameId playerName e
   = Returned ()
       (Env.mk m'
          (BroadcastManager.mk (Some (Channel.mk ("jotto-game-" +:+ gameId) false))
             (BroadcastManager.isHost (Env.transport e)) (Some gameId) me)
          (<["jotto-player-name-" +:+ gameId := Js.trim playerName]>
             (Env.localStorage e))
          (Env.posted e ++
             [P2PMessage.mk ("jotto-game-" +:+ gameId) None
                (JoinRequestMsg
                   (Player.mk me (Js.trim playerName) [] 0 PPlaying joined))
                me])%list)).
Proof. apply joinGame_cases. Qed.

Lemma joinGame_outcome_witness :
  joinGame 2000 "123ZAB" "  " (idle "peer2")
  = Threw "Player name is required." (idle "peer2").
Proof.
  apply (proj1 (joinGame_outcome 2000 "123ZAB" "  " (idle "peer2"))).
  reflexivity.
Defined.

(** X15. When the host of a game leaves, with an open channel, the other
    processes are told (a leave message, then the termination message),
    the host advertisement of the game is removed, the channel is closed,
    the transport draws a new id and the manager forgets the session.
    From then on no process that reads this storage can join the game. *)
Theorem host_leave_closes_game (fresh cname myId : string) (c0 c1 : ascii)
    (g0 g1 : string) (e : Env.t) :
  let gameId := String c0 g0 in
  Env.transport e =
    BroadcastManager.mk (Some (Channel.mk cname false)) true (Some gameId) myId →
  Manager.currentPlayerId (Env.manager e) = Some (String c1 g1) →
  let e1 :=
    Env.mk (Manager.mk None false None)
      (BroadcastManager.mk (Some (Channel.mk cname true)) false None fresh)
      (delete ("jotto-game-" +:+ gameId)
         (delete ("jotto-host-" +:+ gameId) (Env.localStorage e)))
      (Env.posted e ++
         [P2PMessage.mk cname None (LeaveMsg (String c1 g1)) myId;
          P2PMessage.mk cname None TerminatedMsg myId])%list in
  leaveGame fresh e = Returned () e1 ∧
  ∀ joined playerName e2,
    Env.localStorage e2 = Env.localStorage e1 →
    ∃ error e2', joinGame joined gameId playerName e2 = Threw error e2'.
Proof.
  intros gameId Ht Hm e1. split.
  - destruct e as [[gs host cur] tr store posted]. simpl in Ht, Hm. subst tr cur.
    unfold leaveGame, broadcastManager.disconnect, broadcastManager.cleanup.
    do 4 effk. subst e1 gameId. cbn [Env.posted Env.localStorage].
    by rewrite <- app_assoc.
  - intros joined playerName e2 Hs.
    destruct (joinGame_cases joined gameId playerName e2) as (H1 & H2 & _).
    destruct (decide (Js.trim playerName = "")) as [Hn|Hn].
    + eexists _, _. by apply H1.
    + eexists _, _. apply H2; [done|].
      rewrite Hs. unfold e1. cbn [Env.localStorage].
      rewrite lookup_delete_ne by (simpl; discriminate).
      by rewrite lookup_delete_eq.
Qed.

Lemma host_leave_closes_game_witness :
  let e :=
    Env.mk hosting
      (BroadcastManager.mk (Some (Channel.mk "jotto-game-123ZAB" false))
         true (Some "123ZAB") "peer1")
      (Env.localStorage remembering) [] in
  ∃ e1, leaveGame "peer9" e = Returned () e1 ∧
        Env.localStorage e1 !! "jotto-host-123ZAB" = None.
Proof.
  intros e.
  destruct (host_leave_closes_game "peer9" "jotto-game-123ZAB" "peer1"
              "1" "p" "23ZAB" "eer1" e eq_refl eq_refl) as [H _].
  eexists. split; [exact H | reflexivity].
Defined.

(** ** A join, end to end *)

(** X16. The join handshake. A process with a name that is not blank and
    not yet taken joins a game whose host advertisement it can read: its
    join request, received by the host, appends a record with the joiner's
    transport id and trimmed name (no guesses, time 0), and the host
    answers with the player-joined message and a snapshot. Receiving that
    snapshot, the joiner holds the game, is connected to it, and, its id
    not being used by an earlier player, finds that record as its own. *)
Theorem join_handshake (now stamp now' stamp' joined : Z) (playerName chan : string)
    (host : Manager.t) (hostTransport : BroadcastManager.t) (gs : GameState.t)
    (e : Env.t) (c : ascii) (r : string) :
  let me := String c r in
  let gameId := GameState.gameId gs in
  let newPlayer := Player.mk me (Js.trim playerName) [] 0 PPlaying joined in
  let gs' :=
    GameState.mk gameId (GameState.hostWord gs)
      (GameState.players gs ++ [newPlayer])%list
      (GameState.status gs) (GameState.startTime gs) in
  Manager.isHost host = true →
  Manager.gameState host = Some gs →
  BroadcastManager.myId (Env.transport e) = me →
  BroadcastManager.myId hostTransport ≠ me →
  Js.trim playerName ≠ "" →
  Js.truthy (Env.localStorage e !! ("jotto-host-" +:+ gameId)) = true →
  (∀ p, p ∈ GameState.players gs → Player.name p ≠ Js.trim playerName) →
  (∀ p, p ∈ GameState.players gs → Player.id p ≠ me) →
  ∃ e' request,
    joinGame joined gameId playerName e = Returned () e' ∧
    last (Env.posted e') = Some request ∧
    P2PMessage.channelName request = "jotto-game-" +:+ gameId ∧
    onmessage now stamp hostTransport host request
    = Handled (Manager.mk (Some gs') true (Manager.currentPlayerId host))
        [Broadcast (PlayerJoinedMsg newPlayer); Broadcast (GameStateMsg gs')] ∧
    ∃ joiner,
      onmessage now' stamp' (Env.transport e') (Env.manager e')
        (P2PMessage.mk chan None (GameStateMsg gs')
           (BroadcastManager.myId hostTransport))
      = Handled joiner [] ∧
      Manager.gameState joiner = Some gs' ∧
      isConnectedToGame joiner gameId = true ∧
      getCurrentPlayer joiner = Some newPlayer.
Proof.
  intros me gameId newPlayer gs' Hh Hg Hme Hne Hn Ht Hnames Hids.
  destruct (joinGame_cases joined gameId playerName e) as (_ & _ & Hjoin).
  specialize (Hjoin Hn Ht). rewrite Hme in Hjoin. fold me newPlayer in Hjoin.
  eexists _, _. split; [exact Hjoin|]. cbn [Env.posted Env.transport Env.manager].
  split; [apply last_snoc|]. split; [done|]. split.
  - unfold onmessage. cbn [P2PMessage.senderId P2PMessage.body].
    rewrite bool_decide_eq_false_2 by (intros Heq; by apply Hne).
    unfold handleJoinRequest. rewrite Hh, Hg.
    assert (list_find (λ p, Player.name p = Player.name newPlayer)
              (GameState.players gs) = None) as ->.
    { apply list_find_None, Forall_forall. intros p Hp. by apply Hnames. }
    cbn [fst snd]. by rewrite broadcastGameState_host.
  - eexists. unfold onmessage. cbn [P2PMessage.senderId P2PMessage.body BroadcastManager.myId].
    rewrite bool_decide_eq_false_2 by done.
    split; [reflexivity|]. split; [reflexivity|]. split.
    + unfold isConnectedToGame, handleGameStateUpdate. simpl.
      by rewrite !bool_decide_eq_true_2.
    + unfold getCurrentPlayer, handleGameStateUpdate. simpl.
      assert (list_find (λ p, Player.id p = me)
                (GameState.players gs ++ [newPlayer])%list
              = Some (length (GameState.players gs), newPlayer)) as Hf.
      { apply list_find_Some. split_and!.
        - by apply list_lookup_middle.
        - done.
        - intros j y Hj Hlt. apply Hids.
          rewrite lookup_app_l in Hj by done. by eapply list_elem_of_lookup_2. }
      fold me. by rewrite Hf.
Qed.

Lemma join_handshake_witness :
  ∃ e' request,
    joinGame 2000 "123ZAB" " Bob " remembering = Returned () e' ∧
    last (Env.posted e') = Some request ∧
    P2PMessage.channelName request = "jotto-game-123ZAB" ∧
    onmessage 2100 2100 (BroadcastManager.mk None true (Some "123ZAB") "peer1")
      hosting request
    = Handled
        (Manager.mk
           (Some (GameState.mk "123ZAB" "HOUSE" [alice; bob] Waiting (Some 1000%Z)))
           true (Some "peer1"))
        [Broadcast (PlayerJoinedMsg bob);
         Broadcast
           (GameStateMsg
              (GameState.mk "123ZAB" "HOUSE" [alice; bob] Waiting (Some 1000%Z)))] ∧
    ∃ joiner,
      onmessage 2200 2200 (Env.transport e') (Env.manager e')
        (P2PMessage.mk "jotto-game-123ZAB" None
           (GameStateMsg
              (GameState.mk "123ZAB" "HOUSE" [alice; bob] Waiting (Some 1000%Z)))
           "peer1")
      = Handled joiner [] ∧
      Manager.gameState joiner
      = Some (GameState.mk "123ZAB" "HOUSE" [alice; bob] Waiting (Some 1000%Z)) ∧
      isConnectedToGame joiner "123ZAB" = true ∧
      getCurrentPlayer joiner = Some bob.
Proof.
  apply (join_handshake 2100 2100 2200 2200 2000 " Bob " "jotto-game-123ZAB"
           hosting (BroadcastManager.mk None true (Some "123ZAB") "peer1")
           (GameState.mk "123ZAB" "HOUSE" [alice] Waiting (Some 1000%Z))
           remembering "p" "eer2").
  - reflexivity.
  - reflexivity.
  - reflexivity.
  - discriminate.
  - discriminate.
  - reflexivity.
  - intros p Hp. apply list_elem_of_singleton in Hp. subst p. discriminate.
  - intros p Hp. apply list_elem_of_singleton in Hp. subst p. discriminate.
Defined.

(** ** A guess sent by a process that is not the host *)

(** X17. A process that is not the host hands its guess to the transport
    as the pair of its id and the word, and keeps its state. The host's
    listener reads the field [guess] of that payload, which is not there:
    for a player that is present and not finished the handler throws, and
    in no case does the message change the host's state or draw a reply.
    A guess of a non-host is therefore never recorded. *)
Theorem relayed_guess_never_recorded (made now stamp now' stamp' : Z)
    (sender : Manager.t) (c : ascii) (r word chan : string)
    (hostTransport : BroadcastManager.t) (host : Manager.t) :
  let me := String c r in
  Manager.isHost sender = false →
  Manager.currentPlayerId sender = Some me →
  makeGuess made now stamp sender word = (sender, [Broadcast (GuessWordMsg me word)]) ∧
  (onmessage now' stamp' hostTransport host
     (P2PMessage.mk chan None (GuessWordMsg me word) me) = TypeError ∨
   onmessage now' stamp' hostTransport host
     (P2PMessage.mk chan None (GuessWordMsg me word) me) = Handled host []) ∧
  (∀ gs i player,
     BroadcastManager.myId hostTransport ≠ me →
     Manager.isHost host = true →
     Manager.gameState host = Some gs →
     list_find (λ p, Player.id p = me) (GameState.players gs) = Some (i, player) →
     Player.status player ≠ PFinished →
     onmessage now' stamp' hostTransport host
       (P2PMessage.mk chan None (GuessWordMsg me word) me) = TypeError).
Proof.
  intros me Hh Hc. split_and!.
  - unfold makeGuess. by rewrite Hc, Hh.
  - unfold onmessage. cbn [P2PMessage.senderId P2PMessage.body].
    case_bool_decide; [by right|].
    destruct (Manager.isHost host), (Manager.gameState host) as [gs|];
      try (by right).
    destruct (list_find _ _) as [[i p]|]; [|by right].
    case_bool_decide; [by right | by left].
  - intros gs i player Hne Hhost Hg Hf Hs. unfold onmessage.
    cbn [P2PMessage.senderId P2PMessage.body].
    rewrite bool_decide_eq_false_2 by (intros Heq; by apply Hne).
    by rewrite Hhost, Hg, Hf, bool_decide_eq_false_2.
Qed.

Lemma relayed_guess_never_recorded_witness :
  let host :=
    Manager.mk
      (Some (GameState.mk "123ZAB" "HOUSE" [alice; bob] Playing (Some 2000%Z)))
      true (Some "peer1") in
  onmessage 3000 3001 (BroadcastManager.mk None true (Some "123ZAB") "peer1") host
    (P2PMessage.mk "jotto-game-123ZAB" None (GuessWordMsg "peer2" "MOUSE") "peer2")
  = TypeError.
Proof.
  intros host.
  apply (proj2 (proj2 (relayed_guess_never_recorded 2900 2900 2900 3000 3001
                         (Manager.mk None false (Some "peer2")) "p" "eer2" "MOUSE"
                         "jotto-game-123ZAB"
                         (BroadcastManager.mk None true (Some "123ZAB") "peer1") host
                         eq_refl eq_refl))
           (GameState.mk "123ZAB" "HOUSE" [alice; bob] Playing (Some 2000%Z)) 1 bob).
  - discriminate.
  - reflexivity.
  - reflexivity.
  - reflexivity.
  - discriminate.
Defined.

(** ** The listener registry of the transport *)

Lemma removeFirst_snoc (callback : nat) (l : list nat) :
  callback ∉ l → Listeners.removeFirst callback (l ++ [callback])%list = l.
Proof.
  induction l as [|c l IH]; intros Hn; simpl.
  - by rewrite bool_decide_eq_true_2.
  - apply not_elem_of_cons in Hn as [Hc Hl].
    rewrite bool_decide_eq_false_2 by congruence. by rewrite IH.
Qed.

Lemma removeFirst_Permutation (callback : nat) (l : list nat) :
  callback ∈ l → callback :: Listeners.removeFirst callback l ≡ₚ l.
Proof.
  induction l as [|c l IH]; intros Hin; [by apply elem_of_nil in Hin|].
  simpl. case_bool_decide as Hc; [by subst|].
  apply elem_of_cons in Hin as [->|Hin]; [done|].
  rewrite Permutation_swap. by rewrite IH.
Qed.

(** X18. Registering a callback for an event and removing it again leaves
    the callbacks of every other event as they were and the same callbacks
    for the event itself; if the callback was not registered before, the
    registry is exactly as it was. If it was, the earliest registration is
    the one removed, so the order can change. *)
Theorem listeners_on_off (event : string) (callback : nat)
    (registry : gmap string (list nat)) (listeners : list nat) :
  registry !! event = Some listeners →
  let registry' := Listeners.off event callback (Listeners.on event callback registry) in
  Listeners.invoked event registry' ≡ₚ listeners ∧
  (callback ∉ listeners → registry' = registry) ∧
  (∀ other, other ≠ event →
     Listeners.invoked other registry' = Listeners.invoked other registry).
Proof.
  intros Hl registry'. subst registry'.
  unfold Listeners.off, Listeners.on, Listeners.invoked.
  rewrite Hl, lookup_insert_eq, insert_insert_eq. cbn [default]. unfold id.
  split_and!.
  - rewrite lookup_insert_eq. cbn [default]. unfold id.
    apply Permutation_cons_inv with (a := callback).
    rewrite removeFirst_Permutation
      by (apply elem_of_app; right; apply list_elem_of_here).
    by rewrite Permutation_app_comm.
  - intros Hn. rewrite removeFirst_snoc by done. by apply insert_id.
  - intros other Hne. by rewrite lookup_insert_ne.
Qed.

Lemma listeners_on_off_witness :
  Listeners.off "game:state" 7
    (Listeners.on "game:state" 7 (<["game:state" := [1; 2]]> ∅))
  = <["game:state" := [1; 2]]> ∅.
Proof.
  assert ((<["game:state" := [1; 2]]> ∅ : gmap string (list nat)) !! "game:state"
          = Some [1; 2]) as Hl by (vm_compute; reflexivity).
  apply (proj1 (proj2 (listeners_on_off "game:state" 7 _ [1; 2] Hl))).
  intros H. apply elem_of_cons in H as [H|H]; [discriminate|].
  apply elem_of_cons in H as [H|H]; [discriminate|].
  by apply elem_of_nil in H.
Defined.

(** A callback registered twice is still invoked after one removal. *)
Example listeners_double_registration :
  Listeners.invoked "game:state"
    (Listeners.off "game:state" 7
       (Listeners.on "game:state" 7
          (Listeners.on "game:state" 7 (<["game:state" := []]> ∅))))
  = [7].
Proof. reflexivity. Qed.

(** ** The leaderboard order *)

(** X19. The comparator of the leaderboard is a consistent order: it
    returns 0 on a player against itself, swapping the arguments swaps
    the sign, and "not after" is transitive and total; a finished player
    always comes before one that has not finished. *)
Theorem leaderboardCompare_consistent (a b c : Player.t) :
  leaderboardCompare a a = 0%Z ∧
  ((leaderboardCompare a b < 0)%Z ↔ (0 < leaderboardCompare b a)%Z) ∧
  ((leaderboardCompare a b ≤ 0)%Z → (leaderboardCompare b c ≤ 0)%Z →
   (leaderboardCompare a c ≤ 0)%Z) ∧
  ((leaderboardCompare a b ≤ 0)%Z ∨ (leaderboardCompare b a ≤ 0)%Z) ∧
  (Player.status a = PFinished → Player.status b ≠ PFinished →
   (leaderboardCompare a b < 0)%Z).
Proof.
  unfold leaderboardCompare.
  split_and!; repeat case_bool_decide; simpl; intros; try lia; congruence.
Qed.

(** ** What the messages of the host say about its state *)

Local Ltac pick H :=
  simpl in H;
  repeat (apply elem_of_cons in H as [H|H]; [try discriminate H|]);
  try (by apply elem_of_nil in H).

(** X20. A request that the host answers with an error message leaves the
    host's state exactly as it was: a rejected join or an invalid word
    changes nothing. *)
Theorem error_reply_keeps_state (m : Manager.t) (ev : Event) (peerId message : string) :
  Send peerId (ErrorMsg message) ∈ callsOf m ev → step m ev = m.
Proof.
  destruct ev as [player|now player|now stamp playerId guess|playerId];
    cbn [step callsOf].
  - unfold handleJoinRequest.
    destruct (Manager.isHost m), (Manager.gameState m) as [gs|]; try done.
    destruct (list_find _ _); [done|].
    unfold broadcastGameState. intros Hin. pick Hin.
  - unfold handlePlayerJoined.
    destruct (Manager.isHost m), (Manager.gameState m) as [gs|]; try done.
    destruct (list_find _ _); [done|].
    unfold broadcastGameState. intros Hin. pick Hin.
  - unfold handlePlayerGuess.
    destruct (Manager.isHost m), (Manager.gameState m) as [gs|]; try done.
    destruct (list_find _ _) as [[i player]|]; [|done].
    case_bool_decide; [done|].
    destruct (validateWord _); [|done].
    unfold broadcastGameState. cbn -[allActiveFinished].
    destruct (isWordCorrect _ _); intros Hin; pick Hin.
  - unfold handlePlayerLeft.
    destruct (Manager.gameState m) as [gs|]; [|done].
    destruct (list_find _ _) as [[i player]|]; [|done].
    unfold broadcastGameState.
    destruct (Manager.isHost m); intros Hin; pick Hin.
Qed.

Lemma error_reply_keeps_state_witness :
  step hosting (PlayerGuess 3000 3001 "peer1" (Guess.mk "mo" 0 3000)) = hosting.
Proof.
  apply (error_reply_keeps_state hosting
           (PlayerGuess 3000 3001 "peer1" (Guess.mk "mo" 0 3000))
           "peer1" "Invalid word. Must be a 5-letter word.").
  apply list_elem_of_here.
Defined.

(** X21. What the host announces is true of its state after the event: a
    finished message names a player whose record is then finished with
    the announced time, and a guess message carries the guess that is then
    the last one of that player's record. *)
Theorem announcements_match_state (m : Manager.t) (ev : Event) (playerId : string) :
  (∀ finalTime,
     Broadcast (FinishedMsg playerId finalTime) ∈ callsOf m ev →
     ∃ i p, playersOf (step m ev) !! i = Some p ∧ Player.id p = playerId ∧
            Player.status p = PFinished ∧ Player.timeUsed p = finalTime) ∧
  (∀ guess,
     Broadcast (GuessMsg playerId guess) ∈ callsOf m ev →
     ∃ i p, playersOf (step m ev) !! i = Some p ∧ Player.id p = playerId ∧
            last (Player.guesses p) = Some guess).
Proof.
  destruct ev as [player|now player|now stamp pid guess|pid];
    cbn [step callsOf].
  - unfold handleJoinRequest.
    destruct (Manager.isHost m), (Manager.gameState m) as [gs|];
      try solve [split; intros ? Hin; pick Hin].
    destruct (list_find _ _); unfold broadcastGameState;
      split; intros ? Hin; pick Hin.
  - unfold handlePlayerJoined.
    destruct (Manager.isHost m), (Manager.gameState m) as [gs|];
      try solve [split; intros ? Hin; pick Hin].
    destruct (list_find _ _); unfold broadcastGameState;
      split; intros ? Hin; pick Hin.
  - unfold handlePlayerGuess.
    destruct (Manager.isHost m), (Manager.gameState m) as [gs|];
      try solve [split; intros ? Hin; pick Hin].
    destruct (list_find _ _) as [[i player]|] eqn:Hf;
      [|split; intros ? Hin; pick Hin].
    case_bool_decide; [split; intros ? Hin; pick Hin|].
    destruct (validateWord _); [|split; intros ? Hin; pick Hin].
    apply list_find_Some in Hf as (Hi & Hid & _).
    unfold broadcastGameState, playersOf. cbn -[allActiveFinished].
    destruct (isWordCorrect _ _); split; intros ? Hin; pick Hin;
      injection Hin as <-; intros; subst;
      eexists i, _;
      (split; [apply list_lookup_insert_eq; by eapply lookup_lt_Some|]);
      simpl; rewrite ?last_snoc; done.
  - unfold handlePlayerLeft.
    destruct (Manager.gameState m) as [gs|]; [|split; intros ? Hin; pick Hin].
    destruct (list_find _ _) as [[i player]|]; [|split; intros ? Hin; pick Hin].
    unfold broadcastGameState.
    destruct (Manager.isHost m); split; intros ? Hin; pick Hin.
Qed.

Lemma announcements_match_state_witness :
  ∃ i p,
    playersOf (step hosting (PlayerGuess 3000 3001 "peer1" (Guess.mk "house" 0 3000)))
      !! i = Some p ∧
    Player.id p = "peer1" ∧ Player.status p = PFinished ∧ Player.timeUsed p = 2%Z.
Proof.
  apply (proj1 (announcements_match_state hosting
                  (PlayerGuess 3000 3001 "peer1" (Guess.mk "house" 0 3000))
                  "peer1") 2%Z).
  vm_compute. apply list_elem_of_here.
Defined.

Lemma leaderboardCompare_consistent_witness :
  (leaderboardCompare
     (Player.mk "peer1" "Alice" [Guess.mk "HOUSE" 5 5000] 4 PFinished 1000) bob < 0)%Z.
Proof.
  apply (proj2 (proj2 (proj2 (proj2
           (leaderboardCompare_consistent
              (Player.mk "peer1" "Alice" [Guess.mk "HOUSE" 5 5000] 4 PFinished 1000)
              bob bob))))).
  - reflexivity.
  - discriminate.
Defined.
